(** * Per-event quantities of CROWN ([src/quantities.hxx])

    A shallow embedding of the lambdas that [quantities.hxx] registers with
    [df.Define], together with the parts of ROOT they call
    ([ROOT::VecOps::RVec] and [ROOT::Math] GenVector).

    Conventions of the embedding:
    - a C++ [int] is a [Z] in the range of [is_int]; a [size_type] is a [Z]
      in [0, 2^64), and the implicit conversion from [int] wraps around;
    - an [RVec<T>] is a [list T]; its size never exceeds [RVec.max_size];
    - a C++ exception is the [Throw] outcome of [result];
    - the arithmetic is read twice. Module [quantities] reads [double] as
      the real numbers [R], for the algebra of the composite quantities;
      there the narrowing cast [(float)] is a parameter and the values
      stored in attribute arrays are handed through untouched. Module
      [IEEE] reads [double] and [float] as the binary64 and binary32
      numbers of IEEE 754 with round-to-nearest-even, for the casts, the
      guards and the overflow of the four-vector functions; the functions
      of the C math library are parameters there. *)

From Stdlib Require Import ZArith List Bool Lia.
From Stdlib Require Import Reals Lra Machin.
From Stdlib Require Import SpecFloat.
Import ListNotations.

(** ** Exceptions *)

Inductive exn : Type :=
| out_of_range.

Inductive result (A : Type) : Type :=
| Ok (a : A)
| Throw (e : exn).

Arguments Ok {A} a.
Arguments Throw {A} e.

Definition ret {A : Type} (a : A) : result A := Ok a.

Definition bind {A B : Type} (m : result A) (k : A -> result B) : result B :=
  match m with
  | Ok a => k a
  | Throw e => Throw e
  end.

Notation "x <- m ;; k" := (bind m (fun x => k))
  (at level 61, m at next level, right associativity).

Definition returns {A : Type} (m : result A) : bool :=
  match m with
  | Ok _ => true
  | Throw _ => false
  end.

(** ** Machine integers *)

Definition int : Type := Z.
Definition UChar_t : Type := Z.
Definition size_type : Type := Z.

Bind Scope Z_scope with int UChar_t size_type.

Definition is_int (z : Z) : Prop := (- 2 ^ 31 <= z < 2 ^ 31)%Z.

(** The implicit conversion of an [int] argument to the unsigned 64-bit
    [size_type] parameter of [RVec::at]. *)
Definition size_type_of_int (i : int) : size_type := (i mod 2 ^ 64)%Z.

(** ** ROOT::VecOps::RVec *)

Module RVec.

Definition RVec (T : Type) : Type := list T.

(** [fSize] is a 32-bit signed integer. *)
Definition max_size : Z := (2 ^ 31 - 1)%Z.

Definition size {T : Type} (v : RVec T) : size_type := Z.of_nat (length v).

Definition size_ok {T : Type} (v : RVec T) : Prop := (size v <= max_size)%Z.

(** [operator[]]: unchecked access, only used below a range check. *)
Definition get {T : Type} (v : RVec T) (pos : size_type) : option T :=
  nth_error v (Z.to_nat pos).

(** [at(size_type pos)]: throws [std::out_of_range] when [pos >= size]. *)
Definition at_ {T : Type} (v : RVec T) (pos : size_type) : result T :=
  if (size v <=? pos)%Z then Throw out_of_range
  else match get v pos with
       | Some x => Ok x
       | None => Throw out_of_range
       end.

(** [at(size_type pos, value_type fallback)]: no exception, the fallback
    when [pos >= size]. *)
Definition at_or {T : Type} (v : RVec T) (pos : size_type) (fallback : T) : T :=
  if (size v <=? pos)%Z then fallback
  else match get v pos with
       | Some x => x
       | None => fallback
       end.

End RVec.

Import RVec.

(** ** Comparisons of [double] values *)

Definition Rltb (x y : R) : bool := if Rlt_dec x y then true else false.
Definition Rleb (x y : R) : bool := if Rle_dec x y then true else false.
Definition Reqb (x y : R) : bool := if Req_dec_T x y then true else false.

(** ** ROOT::Math GenVector, over exact real arithmetic *)

Module GenVector.

#[local] Open Scope R_scope.

(** [etaMax<Scalar>()], the pseudorapidity assigned to a vector along z. *)
Definition etaMax : R := 22756.

(** [std::atan2] *)
Definition atan2 (y x : R) : R :=
  if Rltb 0 x then atan (y / x)
  else if Rltb x 0 then
         if Rleb 0 y then atan (y / x) + PI else atan (y / x) - PI
       else if Rltb 0 y then PI / 2
            else if Rltb y 0 then - (PI / 2)
                 else 0.

(** [Impl::Eta_FromRhoZ]; in exact arithmetic its large-[z] branch is the
    same inverse hyperbolic sine. *)
Definition Eta_FromRhoZ (rho z : R) : R :=
  if Rltb 0 rho then
    let z_scaled := z / rho in
    ln (z_scaled + sqrt (z_scaled * z_scaled + 1))
  else if Reqb z 0 then 0
       else if Rltb 0 z then z + etaMax
            else z - etaMax.

(** *** DisplacementVector3D<Cartesian3D<double>> (XYZVector) *)

Record XYZVector : Type := mkXYZ { Vx : R; Vy : R; Vz : R }.

Definition SetZ (v : XYZVector) (zz : R) : XYZVector :=
  mkXYZ (Vx v) (Vy v) zz.

Definition Mag2 (v : XYZVector) : R :=
  Vx v * Vx v + Vy v * Vy v + Vz v * Vz v.

(** [R()], the length of the vector. *)
Definition Mag (v : XYZVector) : R := sqrt (Mag2 v).

Definition Scale (a : R) (v : XYZVector) : XYZVector :=
  mkXYZ (Vx v * a) (Vy v * a) (Vz v * a).

(** [operator/]: the coordinates scaled by [1/a]. *)
Definition div (v : XYZVector) (a : R) : XYZVector :=
  Scale (1 / a) v.

(** [Unit()]: a vector of zero length is returned unchanged. Over the
    reals the guard is only taken by the zero vector; what it does once
    the squared length underflows or overflows is in [IEEE.Unit]. *)
Definition Unit (v : XYZVector) : XYZVector :=
  let tot := Mag v in
  if Reqb tot 0 then v else div v tot.

Definition add3 (v1 v2 : XYZVector) : XYZVector :=
  mkXYZ (Vx v1 + Vx v2) (Vy v1 + Vy v2) (Vz v1 + Vz v2).

Definition Dot (v1 v2 : XYZVector) : R :=
  Vx v1 * Vx v2 + Vy v1 * Vy v2 + Vz v1 * Vz v2.

(** *** PxPyPzE4D<double> *)

Record PxPyPzE4D : Type := mkXYZT { fX : R; fY : R; fZ : R; fT : R }.

Module Cartesian.

Definition Perp2 (c : PxPyPzE4D) : R := fX c * fX c + fY c * fY c.

Definition Pt (c : PxPyPzE4D) : R := sqrt (Perp2 c).

Definition Phi (c : PxPyPzE4D) : R :=
  if Reqb (fX c) 0 && Reqb (fY c) 0 then 0 else atan2 (fY c) (fX c).

Definition Eta (c : PxPyPzE4D) : R := Eta_FromRhoZ (Pt c) (fZ c).

Definition M2 (c : PxPyPzE4D) : R :=
  fT c * fT c - fX c * fX c - fY c * fY c - fZ c * fZ c.

(** A negative [M2] is reported through [GenVector::Throw], which does
    nothing unless exceptions were switched on, and the mass is returned
    with a minus sign. *)
Definition M (c : PxPyPzE4D) : R :=
  let mm := M2 c in
  if Rleb 0 mm then sqrt mm else - sqrt (- mm).

End Cartesian.

(** *** LorentzVector<PtEtaPhiM4D<double>> (PtEtaPhiMVector)

    The four stored coordinates. Nothing below relies on a range of the
    stored azimuth; the restriction that the constructor applies to it
    is [IEEE.RestrictPhi]. *)

Record PtEtaPhiMVector : Type :=
  mkPtEtaPhiM { fPt : R; fEta : R; fPhi : R; fM : R }.

Definition Pt (v : PtEtaPhiMVector) : R := fPt v.
Definition Eta (v : PtEtaPhiMVector) : R := fEta v.
Definition Phi (v : PtEtaPhiMVector) : R := fPhi v.
Definition M (v : PtEtaPhiMVector) : R := fM v.

Definition Px (v : PtEtaPhiMVector) : R := fPt v * cos (fPhi v).
Definition Py (v : PtEtaPhiMVector) : R := fPt v * sin (fPhi v).
Definition Pz (v : PtEtaPhiMVector) : R :=
  if Rltb 0 (fPt v) then fPt v * sinh (fEta v)
  else if Reqb (fEta v) 0 then 0
       else if Rltb 0 (fEta v) then fEta v - etaMax
            else fEta v + etaMax.

Definition P (v : PtEtaPhiMVector) : R :=
  if Rltb 0 (fPt v) then fPt v * cosh (fEta v)
  else if Rltb etaMax (fEta v) then fEta v - etaMax
       else if Rltb (fEta v) (- etaMax) then - fEta v - etaMax
            else 0.
Definition P2 (v : PtEtaPhiMVector) : R := let p := P v in p * p.
Definition M2 (v : PtEtaPhiMVector) : R :=
  if Rleb 0 (fM v) then fM v * fM v else - fM v * fM v.
Definition E2 (v : PtEtaPhiMVector) : R :=
  let e2 := P2 v + M2 v in
  if Rltb 0 e2 then e2 else 0.
Definition E (v : PtEtaPhiMVector) : R := sqrt (E2 v).

(** [Vect()]: the spatial part, in cartesian coordinates. *)
Definition Vect (v : PtEtaPhiMVector) : XYZVector :=
  mkXYZ (Px v) (Py v) (Pz v).

(** [SetXYZT], through the assignment from [PxPyPzE4D]. *)
Definition SetXYZT (xx yy zz tt : R) : PtEtaPhiMVector :=
  let c := mkXYZT xx yy zz tt in
  mkPtEtaPhiM (Cartesian.Pt c) (Cartesian.Eta c) (Cartesian.Phi c)
              (Cartesian.M c).

(** [operator+]: [v3 = v1; v3 += v2], the sum taken coordinate by
    coordinate in cartesian coordinates. *)
Definition add (v1 v2 : PtEtaPhiMVector) : PtEtaPhiMVector :=
  SetXYZT (Px v1 + Px v2) (Py v1 + Py v2) (Pz v1 + Pz v2) (E v1 + E v2).

End GenVector.

Import GenVector.

(** ** [vectoroperations.hxx] *)

Module vectoroperations.

#[local] Open Scope R_scope.

(** Modelled from the spec: [vectoroperations::calculateMT], whose
    definition is in [vectoroperations.hxx]. The transverse mass of two
    four-vectors is the default if either is invalid (negative pt), else
    [sqrt (2 * pt_a * pt_b * (1 - cos (phi_a - phi_b)))]. *)
Definition calculateMT (default_float : R) (a b : PtEtaPhiMVector) : R :=
  if Rltb (Pt a) 0 || Rltb (Pt b) 0 then default_float
  else sqrt (2 * Pt a * Pt b * (1 - cos (Phi a - Phi b))).

End vectoroperations.

(** ** [quantities.hxx]

    Each definition is the lambda that the function of the same name hands
    to [df.Define]; the captured [position] comes first, the columns follow
    in the order of the column list. The constants of [defaults.hxx] are
    parameters. *)

Module quantities.

#[local] Open Scope R_scope.

Section Defaults.

(** The cast [(float)] of a [double]: some map of the reals, of which
    nothing is assumed. *)
Variable float_of_double : R -> R.

Variable default_float : R.
Variable default_int : int.
Variable default_pdgid : int.

(** [pt], [eta], [phi] and [mass] only guard and narrow one coordinate;
    they are embedded on the machine numbers, in [IEEE] below. *)

Definition dxy (position : int) (pair : RVec int) (dxy : RVec R)
  : result R :=
  index <- at_ pair (size_type_of_int position) ;;
  ret (at_or dxy (size_type_of_int index) default_float).

Definition dz (position : int) (pair : RVec int) (dz : RVec R)
  : result R :=
  index <- at_ pair (size_type_of_int position) ;;
  ret (at_or dz (size_type_of_int index) default_float).

Definition charge (position : int) (pair : RVec int) (charge : RVec int)
  : result int :=
  index <- at_ pair (size_type_of_int position) ;;
  ret (at_or charge (size_type_of_int index) default_int).

Definition m_vis (p4_1 p4_2 : PtEtaPhiMVector) : R :=
  if Rltb (Pt p4_1) 0 || Rltb (Pt p4_2) 0 then default_float
  else
    let dileptonsystem := add p4_1 p4_2 in
    float_of_double (M dileptonsystem).

(** [float alpha = 0.85]: the binary32 number nearest to 0.85, which is
    14260634 / 2^24 = 0.85000002384185791015625. *)
Definition alpha : R := 14260634 / 16777216.

Definition pzetamissvis (particle_1_p4 particle_2_p4 met : PtEtaPhiMVector)
  : R :=
  let met_3dvec := Vect met in
  let met_3dvec := SetZ met_3dvec 0 in
  let p1_norm := Unit (Vect particle_1_p4) in
  let p2_norm := Unit (Vect particle_2_p4) in
  let p1_norm := SetZ p1_norm 0 in
  let p2_norm := SetZ p2_norm 0 in
  let p1_norm := Unit p1_norm in
  let p2_norm := Unit p2_norm in
  let zeta := Unit (add3 p1_norm p2_norm) in
  let dileptonsystem := add3 (Vect particle_1_p4) (Vect particle_2_p4) in
  let dileptonsystem := SetZ dileptonsystem 0 in
  let pzetaVis := Dot dileptonsystem zeta in
  Dot met_3dvec zeta - alpha * pzetaVis.

Definition mTdileptonMET (particle_1_p4 particle_2_p4 met : PtEtaPhiMVector)
  : R :=
  let dileptonsystem := add particle_1_p4 particle_2_p4 in
  vectoroperations.calculateMT default_float dileptonsystem met.

Definition mT (particle_p4 met : PtEtaPhiMVector) : R :=
  vectoroperations.calculateMT default_float particle_p4 met.

Definition isolation (position : int) (pair : RVec int) (isolation : RVec R)
  : result R :=
  index <- at_ pair (size_type_of_int position) ;;
  ret (at_or isolation (size_type_of_int index) default_float).

Definition pdgid (position : int) (pair : RVec int) (pdgid : RVec int)
  : result int :=
  index <- at_ pair (size_type_of_int position) ;;
  ret (at_or pdgid (size_type_of_int index) default_pdgid).

End Defaults.

Module tau.

Section Defaults.

Variable default_float : R.
Variable default_int : int.
Variable default_uchar : UChar_t.

Definition decaymode (position : int) (pair : RVec int)
           (decaymode : RVec int) : result int :=
  index <- at_ pair (size_type_of_int position) ;;
  ret (at_or decaymode (size_type_of_int index) default_int).

Definition genmatch (position : int) (pair : RVec int)
           (genmatch : RVec UChar_t) : result UChar_t :=
  index <- at_ pair (size_type_of_int position) ;;
  ret (at_or genmatch (size_type_of_int index) default_uchar).

Definition matching_jet_pt (position : int) (pair : RVec int)
           (taujets : RVec int) (jetpt : RVec R) : result R :=
  tauindex <- at_ pair (size_type_of_int position) ;;
  let jetindex := at_or taujets (size_type_of_int tauindex) (-1)%Z in
  ret (at_or jetpt (size_type_of_int jetindex) default_float).

Definition matching_genjet_pt (position : int) (pair : RVec int)
           (taujets : RVec int) (genjets : RVec int) (genjetpt : RVec R)
  : result R :=
  tauindex <- at_ pair (size_type_of_int position) ;;
  let jetindex := at_or taujets (size_type_of_int tauindex) (-1)%Z in
  let genjetindex := at_or genjets (size_type_of_int jetindex) (-1)%Z in
  ret (at_or genjetpt (size_type_of_int genjetindex) default_float).

End Defaults.

End tau.

End quantities.

(** ** The four-vector functions on IEEE 754 numbers

    [double] is binary64 and [float] binary32, both as the Standard
    Library's [spec_float] with its correctly rounded operations
    (round to nearest, ties to even). *)

Module IEEE.

#[local] Open Scope Z_scope.

Definition double : Type := spec_float.
Definition float : Type := spec_float.

Definition dadd : double -> double -> double := SFadd 53 1024.
Definition dsub : double -> double -> double := SFsub 53 1024.
Definition dmul : double -> double -> double := SFmul 53 1024.
Definition ddiv : double -> double -> double := SFdiv 53 1024.
Definition dsqrt : double -> double := SFsqrt 53 1024.
Definition dltb : double -> double -> bool := SFltb.
Definition deqb : double -> double -> bool := SFeqb.

(** The [double] nearest to an integer, and to m 2^e. *)
Definition double_of_Z (z : Z) : double := binary_normalize 53 1024 z 0 false.
Definition double_of_scaled (m e : Z) : double :=
  binary_normalize 53 1024 m e false.

Definition zero : double := S754_zero false.
Definition one : double := double_of_Z 1.


Definition is_zero (x : spec_float) : bool :=
  match x with
  | S754_zero _ => true
  | _ => false
  end.

Definition is_finite (x : spec_float) : bool :=
  match x with
  | S754_zero _ | S754_finite _ _ _ => true
  | _ => false
  end.

(** The real number a finite float stands for. *)
Definition SF2R (x : spec_float) : R :=
  match x with
  | S754_finite s m e => (IZR (cond_Zopp s (Zpos m)) * powerRZ 2 e)%R
  | _ => 0%R
  end.

(** The cast [(float)] of a [double]: rounded to binary32; a magnitude
    past the largest float becomes an infinity, one below half the
    smallest a signed zero. *)
Definition float_of_double (x : double) : float :=
  match x with
  | S754_finite s m e => binary_normalize 24 128 (cond_Zopp s (Zpos m)) e s
  | _ => x
  end.

(** The promotion of a [float] to [double], which is exact. *)
Definition double_of_float (x : float) : double :=
  match x with
  | S754_finite s m e => binary_normalize 53 1024 (cond_Zopp s (Zpos m)) e s
  | _ => x
  end.



Definition etaMax : double := double_of_Z 22756.

(** *** PtEtaPhiM4D<double> *)

Record PtEtaPhiMVector : Type :=
  mkPtEtaPhiM { fPt : double; fEta : double; fPhi : double; fM : double }.

Definition Pt (v : PtEtaPhiMVector) : double := fPt v.
Definition Eta (v : PtEtaPhiMVector) : double := fEta v.
Definition Phi (v : PtEtaPhiMVector) : double := fPhi v.
Definition M (v : PtEtaPhiMVector) : double := fM v.


(** *** DisplacementVector3D<Cartesian3D<double>> *)

Record XYZVector : Type := mkXYZ { Vx : double; Vy : double; Vz : double }.

Definition SetZ (v : XYZVector) (zz : double) : XYZVector :=
  mkXYZ (Vx v) (Vy v) zz.

Definition Mag2 (v : XYZVector) : double :=
  dadd (dadd (dmul (Vx v) (Vx v)) (dmul (Vy v) (Vy v))) (dmul (Vz v) (Vz v)).

Definition Mag (v : XYZVector) : double := dsqrt (Mag2 v).

Definition Scale (a : double) (v : XYZVector) : XYZVector :=
  mkXYZ (dmul (Vx v) a) (dmul (Vy v) a) (dmul (Vz v) a).

Definition div (v : XYZVector) (a : double) : XYZVector :=
  Scale (ddiv one a) v.

Definition Unit (v : XYZVector) : XYZVector :=
  let tot := Mag v in
  if deqb tot zero then v else div v tot.

Definition add3 (v1 v2 : XYZVector) : XYZVector :=
  mkXYZ (dadd (Vx v1) (Vx v2)) (dadd (Vy v1) (Vy v2)) (dadd (Vz v1) (Vz v2)).

Definition Dot (v1 v2 : XYZVector) : double :=
  dadd (dadd (dmul (Vx v1) (Vx v2)) (dmul (Vy v1) (Vy v2)))
       (dmul (Vz v1) (Vz v2)).


(** *** The functions of [quantities.hxx] *)

Section Defaults.

Variable default_float : float.

Definition pt (p4 : PtEtaPhiMVector) : float := float_of_double (Pt p4).

Definition eta (p4 : PtEtaPhiMVector) : float := float_of_double (Eta p4).

Definition phi (p4 : PtEtaPhiMVector) : float :=
  if dltb (Pt p4) zero then default_float
  else float_of_double (Phi p4).

Definition mass (p4 : PtEtaPhiMVector) : float :=
  if dltb (Pt p4) zero then default_float
  else float_of_double (M p4).

End Defaults.

(** [float alpha = 0.85]: the literal is a [double], narrowed. *)
Definition alpha : float :=
  float_of_double (ddiv (double_of_Z 85) (double_of_Z 100)).

Section Libm.

(** [std::cos], [std::sin] and [std::sinh] of the C library. *)
Variables cos sin sinh : double -> double.

(** What the C standard fixes of them at zero. *)
Definition exact_at_zero : Prop :=
  cos zero = one /\ sin zero = zero /\ sinh zero = zero.

Definition Px (v : PtEtaPhiMVector) : double := dmul (fPt v) (cos (fPhi v)).
Definition Py (v : PtEtaPhiMVector) : double := dmul (fPt v) (sin (fPhi v)).
Definition Pz (v : PtEtaPhiMVector) : double :=
  if dltb zero (fPt v) then dmul (fPt v) (sinh (fEta v))
  else if deqb (fEta v) zero then zero
       else if dltb zero (fEta v) then dsub (fEta v) etaMax
            else dadd (fEta v) etaMax.

Definition Vect (v : PtEtaPhiMVector) : XYZVector :=
  mkXYZ (Px v) (Py v) (Pz v).

Definition pzetamissvis (particle_1_p4 particle_2_p4 met : PtEtaPhiMVector)
  : double :=
  let met_3dvec := Vect met in
  let met_3dvec := SetZ met_3dvec zero in
  let p1_norm := Unit (Vect particle_1_p4) in
  let p2_norm := Unit (Vect particle_2_p4) in
  let p1_norm := SetZ p1_norm zero in
  let p2_norm := SetZ p2_norm zero in
  let p1_norm := Unit p1_norm in
  let p2_norm := Unit p2_norm in
  let zeta := Unit (add3 p1_norm p2_norm) in
  let dileptonsystem := add3 (Vect particle_1_p4) (Vect particle_2_p4) in
  let dileptonsystem := SetZ dileptonsystem zero in
  let pzetaVis := Dot dileptonsystem zeta in
  dsub (Dot met_3dvec zeta) (dmul (double_of_float alpha) pzetaVis).


End Libm.

End IEEE.

(** * Specification-side definitions *)

(** ** Indexed attributes *)

(** What a lookup of [attrs] at the stored index [idx] has to give: the
    element when the index is in range, the default otherwise. *)
Definition lookup_gives {T : Type} (r : result T) (attrs : RVec T) (idx : int)
           (default : T) : Prop :=
  ((0 <= idx < size attrs)%Z ->
   exists x, nth_error attrs (Z.to_nat idx) = Some x /\ r = Ok x) /\
  (~ (0 <= idx < size attrs)%Z -> r = Ok default).

(** The shape shared by the seven attribute lambdas. *)
Definition indexed_lookup {T : Type} (default : T) (position : int)
           (pair : RVec int) (attrs : RVec T) : result T :=
  index <- at_ pair (size_type_of_int position) ;;
  ret (at_or attrs (size_type_of_int index) default).

(** ** Association chains *)

(** A hop through the association array [assoc] at index [i] fails when
    the index is out of range or the entry is the "no association" marker
    -1. *)
Definition hop_fails (assoc : RVec int) (i : int) : Prop :=
  ~ (0 <= i < size assoc)%Z \/ nth_error assoc (Z.to_nat i) = Some (-1)%Z.

(** ** Entries and hops of index vectors *)

(** [x] is the entry of [v] at the signed index [i]. *)
Definition entry {T : Type} (v : RVec T) (i : int) (x : T) : Prop :=
  (0 <= i)%Z /\ nth_error v (Z.to_nat i) = Some x.

(** One hop through an association array: the associated index, or -1. *)
Definition follow (assoc : RVec int) (i : int) : int :=
  at_or assoc (size_type_of_int i) (-1)%Z.

(** ** pZetaMissVis, as the specification words it *)

Module PZetaSpec.

#[local] Open Scope R_scope.

(** The length and the direction of a three-vector. *)
Definition length (v : XYZVector) : R :=
  sqrt (Vx v * Vx v + Vy v * Vy v + Vz v * Vz v).

Definition normalize (v : XYZVector) : XYZVector :=
  mkXYZ (Vx v / length v) (Vy v / length v) (Vz v / length v).

(** The vector with its z-component zeroed. *)
Definition transverse (v : XYZVector) : XYZVector :=
  mkXYZ (Vx v) (Vy v) 0.

Definition transverse_direction (p : PtEtaPhiMVector) : XYZVector :=
  normalize (transverse (normalize (Vect p))).

(** The bisector of the two particles in the transverse plane. *)
Definition zeta_hat (p1 p2 : PtEtaPhiMVector) : XYZVector :=
  normalize (add3 (transverse_direction p1) (transverse_direction p2)).

Definition pZetaMiss (p1 p2 met : PtEtaPhiMVector) : R :=
  Dot (transverse (Vect met)) (zeta_hat p1 p2).

Definition pZetaVis (p1 p2 : PtEtaPhiMVector) : R :=
  Dot (transverse (add3 (Vect p1) (Vect p2))) (zeta_hat p1 p2).

(** pZetaMiss - a pZetaVis for a coefficient [a]. *)
Definition pZetaMissVis_with (a : R) (p1 p2 met : PtEtaPhiMVector) : R :=
  pZetaMiss p1 p2 met - a * pZetaVis p1 p2.

(** The coefficient as the specification gives it. *)
Definition pZetaMissVis (p1 p2 met : PtEtaPhiMVector) : R :=
  pZetaMissVis_with 0.85 p1 p2 met.

(** A particle whose three-vector has a transverse component. *)
Definition has_transverse_component (p : PtEtaPhiMVector) : Prop :=
  Px p <> 0 \/ Py p <> 0.

End PZetaSpec.

(** ** pZetaMissVis, as the specification words it, on the machine numbers *)

Module PZetaMachine.

Section Libm.

Variables cos sin sinh : IEEE.double -> IEEE.double.

(** The direction of a three-vector: the vector divided by its length. *)
Definition normalize (v : IEEE.XYZVector) : IEEE.XYZVector :=
  IEEE.div v (IEEE.Mag v).

Definition transverse (v : IEEE.XYZVector) : IEEE.XYZVector :=
  IEEE.mkXYZ (IEEE.Vx v) (IEEE.Vy v) IEEE.zero.

Definition transverse_direction (p : IEEE.PtEtaPhiMVector) : IEEE.XYZVector :=
  normalize (transverse (normalize (IEEE.Vect cos sin sinh p))).

Definition zeta_hat (p1 p2 : IEEE.PtEtaPhiMVector) : IEEE.XYZVector :=
  normalize (IEEE.add3 (transverse_direction p1) (transverse_direction p2)).

Definition pZetaMiss (p1 p2 met : IEEE.PtEtaPhiMVector) : IEEE.double :=
  IEEE.Dot (transverse (IEEE.Vect cos sin sinh met)) (zeta_hat p1 p2).

Definition pZetaVis (p1 p2 : IEEE.PtEtaPhiMVector) : IEEE.double :=
  IEEE.Dot (transverse (IEEE.add3 (IEEE.Vect cos sin sinh p1)
                                  (IEEE.Vect cos sin sinh p2)))
           (zeta_hat p1 p2).

Definition pZetaMissVis (p1 p2 met : IEEE.PtEtaPhiMVector) : IEEE.double :=
  IEEE.dsub (pZetaMiss p1 p2 met)
            (IEEE.dmul (IEEE.double_of_float IEEE.alpha) (pZetaVis p1 p2)).

(** The length of a vector does not compute to zero. *)
Definition has_length (v : IEEE.XYZVector) : bool :=
  negb (IEEE.deqb (IEEE.Mag v) IEEE.zero).

(** None of the five lengths that the bisector is divided by computes to
    zero. *)
Definition lengths_nonzero (p1 p2 : IEEE.PtEtaPhiMVector) : bool :=
  has_length (IEEE.Vect cos sin sinh p1)
  && has_length (IEEE.Vect cos sin sinh p2)
  && has_length (transverse (normalize (IEEE.Vect cos sin sinh p1)))
  && has_length (transverse (normalize (IEEE.Vect cos sin sinh p2)))
  && has_length (IEEE.add3 (transverse_direction p1) (transverse_direction p2)).

End Libm.

End PZetaMachine.

(** ** pZetaMissVis in the transverse plane *)

(** pZetaMiss - a pZetaVis written with the transverse momenta and the
    azimuths only: the bisector is the direction of
    (cos phi1 + cos phi2, sin phi1 + sin phi2). *)
Definition pzeta_transverse (a pt1 phi1 pt2 phi2 ptm phim : R) : R :=
  (let zx := cos phi1 + cos phi2 in
   let zy := sin phi1 + sin phi2 in
   let n := sqrt (zx * zx + zy * zy) in
   (ptm * cos phim * zx + ptm * sin phim * zy) / n
   - a * (((pt1 * cos phi1 + pt2 * cos phi2) * zx
              + (pt1 * sin phi1 + pt2 * sin phi2) * zy) / n))%R.

Import quantities.

(** * Properties *)

(** ** Bounds-checked access *)

Section RVecFacts.

#[local] Open Scope Z_scope.

Context {T : Type}.

Lemma size_type_of_int_nonneg (i : int) :
  0 <= i < 2 ^ 64 -> size_type_of_int i = i.
Proof. intros H. unfold size_type_of_int. now apply Z.mod_small. Qed.

Lemma size_type_of_int_neg (i : int) :
  is_int i -> i < 0 -> size_type_of_int i = i + 2 ^ 64.
Proof.
  unfold is_int, size_type_of_int. intros Hi Hneg.
  symmetry. apply (Z.mod_unique_pos i (2 ^ 64) (-1) (i + 2 ^ 64)); lia.
Qed.

Lemma get_in_range (v : RVec T) (pos : Z) :
  0 <= pos < size v -> exists x, get v pos = Some x.
Proof.
  unfold size, get. intros H.
  destruct (nth_error v (Z.to_nat pos)) as [x|] eqn:E.
  - now exists x.
  - apply nth_error_None in E. lia.
Qed.

Lemma at_in_range (v : RVec T) (i : int) :
  0 <= i < size v -> i < 2 ^ 64 ->
  exists x, nth_error v (Z.to_nat i) = Some x /\
            at_ v (size_type_of_int i) = Ok x.
Proof.
  intros Hr Hi. rewrite size_type_of_int_nonneg by lia.
  destruct (get_in_range v i Hr) as [x Hx]. exists x. split; [exact Hx|].
  unfold at_. rewrite Hx.
  destruct (Z.leb_spec (size v) i); [lia | reflexivity].
Qed.

Lemma at_past_end (v : RVec T) (i : int) :
  0 <= i < 2 ^ 64 -> size v <= i ->
  at_ v (size_type_of_int i) = Throw out_of_range.
Proof.
  intros Hi Hr. rewrite size_type_of_int_nonneg by lia.
  unfold at_. destruct (Z.leb_spec (size v) i); [reflexivity | lia].
Qed.

Lemma at_or_in_range (v : RVec T) (i : int) (fallback : T) :
  0 <= i < size v -> i < 2 ^ 64 ->
  exists x, nth_error v (Z.to_nat i) = Some x /\
            at_or v (size_type_of_int i) fallback = x.
Proof.
  intros Hr Hi. rewrite size_type_of_int_nonneg by lia.
  destruct (get_in_range v i Hr) as [x Hx]. exists x. split; [exact Hx|].
  unfold at_or. rewrite Hx.
  destruct (Z.leb_spec (size v) i); [lia | reflexivity].
Qed.

Lemma at_or_out_of_range (v : RVec T) (i : int) (fallback : T) :
  size_ok v -> is_int i -> ~ (0 <= i < size v) ->
  at_or v (size_type_of_int i) fallback = fallback.
Proof.
  unfold size_ok, max_size. intros Hv Hi Hr.
  assert (Hs : size v <= size_type_of_int i).
  { destruct (Z.neg_nonneg_cases i) as [Hneg | Hpos].
    - rewrite (size_type_of_int_neg i Hi Hneg). unfold is_int in Hi. lia.
    - unfold is_int in Hi. rewrite size_type_of_int_nonneg by lia. lia. }
  unfold at_or. destruct (Z.leb_spec (size v) (size_type_of_int i)); [reflexivity | lia].
Qed.

(** The "no association" marker is out of range for every vector. *)
Lemma at_or_minus_one (v : RVec T) (fallback : T) :
  size_ok v -> at_or v (size_type_of_int (-1)) fallback = fallback.
Proof.
  intros Hv. apply at_or_out_of_range; [exact Hv | unfold is_int; lia | lia].
Qed.

End RVecFacts.

(** ** Indexed attributes *)

Section IndexedLookup.

#[local] Open Scope Z_scope.

Context {T : Type}.
Variable default : T.

Lemma pair_entry (position : int) (pair : RVec int) :
  position = 0 \/ position = 1 ->
  position + 1 <= size pair ->
  exists idx, nth_error pair (Z.to_nat position) = Some idx /\
              at_ pair (size_type_of_int position) = Ok idx.
Proof.
  intros Hp Hlen. apply at_in_range; lia.
Qed.

Lemma indexed_lookup_gives (position : int) (pair : RVec int) (idx : int)
      (attrs : RVec T) :
  at_ pair (size_type_of_int position) = Ok idx ->
  is_int idx -> size_ok attrs ->
  lookup_gives (indexed_lookup default position pair attrs) attrs idx default.
Proof.
  intros Hat Hidx Hsz. unfold indexed_lookup. rewrite Hat. cbn [bind ret].
  split; intros Hr.
  - destruct (at_or_in_range attrs idx default Hr) as [x [Hx Hv]].
    { unfold is_int in Hidx. lia. }
    exists x. split; [exact Hx | now rewrite Hv].
  - now rewrite at_or_out_of_range.
Qed.


End IndexedLookup.

Lemma Forall_is_int_entry (pair : RVec int) (n : nat) (idx : int) :
  Forall is_int pair -> nth_error pair n = Some idx -> is_int idx.
Proof.
  intros Hall Hn. rewrite Forall_forall in Hall.
  apply Hall. eapply nth_error_In. exact Hn.
Qed.

(** C1: for position 0 or 1 and a pair vector with at least position+1
    entries, each indexed-attribute lambda returns the attribute stored at
    the pair's index when that index is in the range of the attribute
    array, and the array's default otherwise: [default_float] for dxy, dz
    and isolation, [default_int] for charge and decaymode, [default_pdgid]
    for pdgid, [default_uchar] for genmatch. A negative index is out of
    range. *)
Theorem indexed_attribute_lookup
        (default_float : R) (default_int default_pdgid : int)
        (default_uchar : UChar_t)
        (position : int) (pair : RVec int) :
  (position = 0 \/ position = 1)%Z ->
  (position + 1 <= size pair)%Z ->
  Forall is_int pair ->
  exists idx : int,
    nth_error pair (Z.to_nat position) = Some idx /\
    (forall a : RVec R, size_ok a ->
       lookup_gives (dxy default_float position pair a) a idx default_float /\
       lookup_gives (dz default_float position pair a) a idx default_float /\
       lookup_gives (isolation default_float position pair a) a idx default_float) /\
    (forall a : RVec int, size_ok a ->
       lookup_gives (charge default_int position pair a) a idx default_int /\
       lookup_gives (tau.decaymode default_int position pair a) a idx default_int /\
       lookup_gives (pdgid default_pdgid position pair a) a idx default_pdgid) /\
    (forall a : RVec UChar_t, size_ok a ->
       lookup_gives (tau.genmatch default_uchar position pair a) a idx default_uchar).
Proof.
  intros Hp Hlen Hints.
  destruct (pair_entry position pair Hp Hlen) as [idx [Hnth Hat]].
  assert (Hidx : is_int idx) by (eapply Forall_is_int_entry; eassumption).
  exists idx. split; [exact Hnth|].
  repeat split; try (apply (indexed_lookup_gives _ position pair idx a Hat Hidx H)).
Qed.

(** The scenario of the specification: pair = [2, -1] and
    attrs = [0.1, 0.2, 0.3] give 0.3 at position 0 and the default at
    position 1. *)
Lemma indexed_attribute_lookup_scenario :
  dxy (-10) 0 [2; -1]%Z [0.1; 0.2; 0.3]%R = Ok 0.3%R /\
  dxy (-10) 1 [2; -1]%Z [0.1; 0.2; 0.3]%R = Ok (-10)%R.
Proof.
  assert (Hints : Forall is_int [2; -1]%Z).
  { repeat constructor; unfold is_int; lia. }
  assert (Hsz : size_ok [0.1; 0.2; 0.3]%R).
  { unfold size_ok, size, max_size. simpl. lia. }
  split.
  - destruct (indexed_attribute_lookup (-10) (-10) 0 0 0 [2; -1]%Z)
      as [idx [Hnth [Hfloat _]]].
    + now left.
    + unfold size. simpl. lia.
    + exact Hints.
    + simpl in Hnth. injection Hnth as <-.
      destruct (Hfloat _ Hsz) as [[Hin _] _].
      destruct Hin as [x [Hx Hr]].
      * unfold size. simpl. lia.
      * simpl in Hx. injection Hx as <-. exact Hr.
  - destruct (indexed_attribute_lookup (-10) (-10) 0 0 1 [2; -1]%Z)
      as [idx [Hnth [Hfloat _]]].
    + now right.
    + unfold size. simpl. lia.
    + exact Hints.
    + simpl in Hnth. injection Hnth as <-.
      destruct (Hfloat _ Hsz) as [[_ Hout] _].
      apply Hout. lia.
Defined.

(** C10: the lambdas registered by dxy, dz and isolation are the same
    function of the pair vector, the position and the attribute array. *)
Theorem dxy_dz_isolation_same
        (default_float : R) (position : int) (pair : RVec int) (a : RVec R) :
  dxy default_float position pair a = dz default_float position pair a /\
  dz default_float position pair a = isolation default_float position pair a /\
  dxy default_float position pair a = indexed_lookup default_float position pair a.
Proof. repeat split. Qed.

(** ** Association chains *)

Section AssociationChains.

#[local] Open Scope Z_scope.

Lemma failed_hop_gives_marker (assoc : RVec int) (i : int) :
  size_ok assoc -> is_int i -> hop_fails assoc i ->
  at_or assoc (size_type_of_int i) (-1) = -1.
Proof.
  intros Hsz Hi Hfail.
  destruct (Z_le_dec 0 i) as [H0 | H0]; [destruct (Z_lt_dec i (size assoc)) as [H1 | H1]|].
  - destruct (at_or_in_range assoc i (-1)) as [x [Hx Hv]]; [lia | unfold is_int in Hi; lia |].
    destruct Hfail as [Hout | Hmark]; [lia|].
    rewrite Hv. congruence.
  - apply at_or_out_of_range; [assumption | assumption | lia].
  - apply at_or_out_of_range; [assumption | assumption | lia].
Qed.

Lemma passed_hop_gives_entry (assoc : RVec int) (i next : int) :
  0 <= i < size assoc -> is_int i ->
  nth_error assoc (Z.to_nat i) = Some next ->
  at_or assoc (size_type_of_int i) (-1) = next.
Proof.
  intros Hr Hi Hn.
  destruct (at_or_in_range assoc i (-1)) as [x [Hx Hv]]; [lia | unfold is_int in Hi; lia |].
  rewrite Hv. congruence.
Qed.

End AssociationChains.

(** C6: in [matching_jet_pt] and [matching_genjet_pt], once the pair entry
    is read, a hop that fails (index out of range, or the marker -1) makes
    the result [default_float] whatever the arrays of the later hops hold;
    so does a last index that is out of the range of the pt array. *)
Theorem association_chain_default
        (default_float : R) (position : int) (pair taujets : RVec int) :
  (position = 0 \/ position = 1)%Z ->
  (position + 1 <= size pair)%Z ->
  Forall is_int pair ->
  size_ok taujets ->
  Forall is_int taujets ->
  exists tauindex : int,
    nth_error pair (Z.to_nat position) = Some tauindex /\
    (* the first hop fails *)
    (hop_fails taujets tauindex ->
     (forall jetpt : RVec R, size_ok jetpt ->
        tau.matching_jet_pt default_float position pair taujets jetpt
        = Ok default_float) /\
     (forall (genjets : RVec int) (genjetpt : RVec R),
        size_ok genjets -> size_ok genjetpt ->
        tau.matching_genjet_pt default_float position pair taujets genjets genjetpt
        = Ok default_float)) /\
    (* the first hop gives [jetindex] *)
    (forall jetindex : int,
       (0 <= tauindex < size taujets)%Z ->
       nth_error taujets (Z.to_nat tauindex) = Some jetindex ->
       (forall jetpt : RVec R, size_ok jetpt ->
          ~ (0 <= jetindex < size jetpt)%Z ->
          tau.matching_jet_pt default_float position pair taujets jetpt
          = Ok default_float) /\
       (* the second hop fails *)
       (forall (genjets : RVec int) (genjetpt : RVec R),
          size_ok genjets -> size_ok genjetpt ->
          hop_fails genjets jetindex ->
          tau.matching_genjet_pt default_float position pair taujets genjets genjetpt
          = Ok default_float) /\
       (* the second hop gives [genjetindex], out of the range of the pt array *)
       (forall (genjets : RVec int) (genjetpt : RVec R) (genjetindex : int),
          Forall is_int genjets -> size_ok genjetpt ->
          (0 <= jetindex < size genjets)%Z ->
          nth_error genjets (Z.to_nat jetindex) = Some genjetindex ->
          ~ (0 <= genjetindex < size genjetpt)%Z ->
          tau.matching_genjet_pt default_float position pair taujets genjets genjetpt
          = Ok default_float)).
Proof.
  intros Hp Hlen Hints Hsz Htj.
  destruct (pair_entry position pair Hp Hlen) as [tauindex [Hnth Hat]].
  assert (Hti : is_int tauindex) by exact (Forall_is_int_entry pair _ _ Hints Hnth).
  exists tauindex. split; [exact Hnth|]. split.
  - intros Hfail. split.
    + intros jetpt Hj. unfold tau.matching_jet_pt. rewrite Hat. cbn [bind ret].
      rewrite (failed_hop_gives_marker taujets tauindex Hsz Hti Hfail).
      now rewrite at_or_minus_one.
    + intros genjets genjetpt Hg Hgp.
      unfold tau.matching_genjet_pt. rewrite Hat. cbn [bind ret].
      rewrite (failed_hop_gives_marker taujets tauindex Hsz Hti Hfail).
      rewrite (at_or_minus_one genjets) by assumption.
      now rewrite at_or_minus_one.
  - intros jetindex Hr Hj.
    assert (Hji : is_int jetindex) by exact (Forall_is_int_entry taujets _ _ Htj Hj).
    repeat split.
    + intros jetpt Hjp Hout. unfold tau.matching_jet_pt. rewrite Hat. cbn [bind ret].
      rewrite (passed_hop_gives_entry taujets tauindex jetindex Hr Hti Hj).
      now rewrite at_or_out_of_range.
    + intros genjets genjetpt Hg Hgp Hfail.
      unfold tau.matching_genjet_pt. rewrite Hat. cbn [bind ret].
      rewrite (passed_hop_gives_entry taujets tauindex jetindex Hr Hti Hj).
      rewrite (failed_hop_gives_marker genjets jetindex Hg Hji Hfail).
      now rewrite at_or_minus_one.
    + intros genjets genjetpt genjetindex Hgi Hgp Hr2 Hg2 Hout.
      assert (Hgji : is_int genjetindex) by exact (Forall_is_int_entry genjets _ _ Hgi Hg2).
      unfold tau.matching_genjet_pt. rewrite Hat. cbn [bind ret].
      rewrite (passed_hop_gives_entry taujets tauindex jetindex Hr Hti Hj).
      rewrite (passed_hop_gives_entry genjets jetindex genjetindex Hr2 Hji Hg2).
      now rewrite at_or_out_of_range.
Qed.

(** The scenario of the specification: tauJetIndex = [5],
    genJetIndex = [-1, -1, -1, -1, -1, -1], pair = [0]; the chain breaks at
    the second hop. *)
Lemma association_chain_scenario :
  tau.matching_genjet_pt (-10) 0 [0]%Z [5]%Z [-1; -1; -1; -1; -1; -1]%Z
                         [31.5; 27.25]%R
  = Ok (-10)%R.
Proof.
  destruct (association_chain_default (-10) 0 [0]%Z [5]%Z)
    as [tauindex [Hnth [_ Hpass]]].
  - now left.
  - unfold size. simpl. lia.
  - repeat constructor; unfold is_int; lia.
  - unfold size_ok, size, max_size. simpl. lia.
  - repeat constructor; unfold is_int; lia.
  - simpl in Hnth. injection Hnth as <-.
    destruct (Hpass 5%Z) as [_ [Hsecond _]].
    + unfold size. simpl. lia.
    + reflexivity.
    + apply Hsecond.
      * unfold size_ok, size, max_size. simpl. lia.
      * unfold size_ok, size, max_size. simpl. lia.
      * right. reflexivity.
Defined.

(** ** Real comparisons *)

Section Comparisons.

#[local] Open Scope R_scope.

Lemma Rltb_true (x y : R) : x < y -> Rltb x y = true.
Proof. intros H. unfold Rltb. destruct (Rlt_dec x y); [reflexivity | contradiction]. Qed.

Lemma Rltb_false (x y : R) : y <= x -> Rltb x y = false.
Proof. intros H. unfold Rltb. destruct (Rlt_dec x y); [lra | reflexivity]. Qed.

Lemma Rleb_true (x y : R) : x <= y -> Rleb x y = true.
Proof. intros H. unfold Rleb. destruct (Rle_dec x y); [reflexivity | contradiction]. Qed.

Lemma Reqb_true (x y : R) : x = y -> Reqb x y = true.
Proof. intros H. unfold Reqb. destruct (Req_dec_T x y); [reflexivity | contradiction]. Qed.

Lemma Reqb_false (x y : R) : x <> y -> Reqb x y = false.
Proof. intros H. unfold Reqb. destruct (Req_dec_T x y); [contradiction | reflexivity]. Qed.

End Comparisons.

(** ** Three-vectors *)

Section ThreeVectors.

#[local] Open Scope R_scope.

Lemma XYZ_eq (v w : XYZVector) :
  Vx v = Vx w -> Vy v = Vy w -> Vz v = Vz w -> v = w.
Proof. destruct v, w. simpl. intros -> -> ->. reflexivity. Qed.

Lemma Mag2_nonneg (v : XYZVector) : 0 <= Mag2 v.
Proof. unfold Mag2. nra. Qed.

Lemma Mag_zero (v : XYZVector) :
  Mag v = 0 -> Vx v = 0 /\ Vy v = 0 /\ Vz v = 0.
Proof.
  intros H. apply sqrt_eq_0 in H; [|apply Mag2_nonneg].
  unfold Mag2 in H. repeat split; nra.
Qed.

Lemma Mag_nonzero (v : XYZVector) :
  Vx v <> 0 \/ Vy v <> 0 \/ Vz v <> 0 -> Mag v <> 0.
Proof.
  intros H Hm. apply Mag_zero in Hm. destruct Hm as [Hx [Hy Hz]].
  destruct H as [H | [H | H]]; contradiction.
Qed.

Lemma Unit_of_zero_length (v : XYZVector) : Mag v = 0 -> Unit v = v.
Proof. intros H. unfold Unit. cbv zeta. now rewrite Reqb_true. Qed.

Lemma Unit_of_nonzero_length (v : XYZVector) :
  Mag v <> 0 ->
  Unit v = mkXYZ (Vx v / Mag v) (Vy v / Mag v) (Vz v / Mag v).
Proof.
  intros H. unfold Unit. cbv zeta. rewrite Reqb_false by assumption.
  unfold div, Scale. apply XYZ_eq; simpl; field; assumption.
Qed.

End ThreeVectors.

Section PZeta.

#[local] Open Scope R_scope.

Import PZetaSpec.

Lemma length_Mag (v : XYZVector) : length v = Mag v.
Proof. reflexivity. Qed.

(** The guard of [Unit] only matters for the zero vector, whose
    coordinates stay zero under any scaling. *)
Lemma Unit_normalize (v : XYZVector) : Unit v = normalize v.
Proof.
  destruct (Req_dec_T (Mag v) 0) as [H0 | Hn].
  - rewrite Unit_of_zero_length by assumption.
    destruct (Mag_zero v H0) as [Hx [Hy Hz]].
    unfold normalize. apply XYZ_eq; simpl.
    + rewrite Hx. unfold Rdiv. now rewrite Rmult_0_l.
    + rewrite Hy. unfold Rdiv. now rewrite Rmult_0_l.
    + rewrite Hz. unfold Rdiv. now rewrite Rmult_0_l.
  - rewrite Unit_of_nonzero_length by assumption. reflexivity.
Qed.

Lemma SetZ_transverse (v : XYZVector) : SetZ v 0 = transverse v.
Proof. reflexivity. Qed.

Lemma pzetamissvis_unfold (p1 p2 met : PtEtaPhiMVector) :
  pzetamissvis p1 p2 met = pZetaMissVis_with alpha p1 p2 met.
Proof.
  unfold pzetamissvis, pZetaMissVis_with, pZetaMiss, pZetaVis, zeta_hat,
    transverse_direction. cbv zeta.
  rewrite !SetZ_transverse, !Unit_normalize.
  reflexivity.
Qed.

Lemma particle_length_nonzero (p : PtEtaPhiMVector) :
  has_transverse_component p -> length (Vect p) <> 0.
Proof.
  intros H. rewrite length_Mag. apply Mag_nonzero.
  unfold Vect. simpl. destruct H; [left | right; left]; assumption.
Qed.

Lemma transverse_length_nonzero (p : PtEtaPhiMVector) :
  has_transverse_component p ->
  length (transverse (normalize (Vect p))) <> 0.
Proof.
  intros H. pose proof (particle_length_nonzero p H) as Hl.
  rewrite length_Mag. apply Mag_nonzero. unfold transverse, normalize, Vect. simpl.
  destruct H as [H | H]; [left | right; left].
  - intros Hq. apply H.
    apply (Rmult_eq_compat_r (length (Vect p))) in Hq.
    unfold Vect in Hq, Hl. unfold Rdiv in Hq.
    rewrite Rmult_assoc, Rinv_l, Rmult_1_r, Rmult_0_l in Hq; assumption.
  - intros Hq. apply H.
    apply (Rmult_eq_compat_r (length (Vect p))) in Hq.
    unfold Vect in Hq, Hl. unfold Rdiv in Hq.
    rewrite Rmult_assoc, Rinv_l, Rmult_1_r, Rmult_0_l in Hq; assumption.
Qed.

End PZeta.

(** ** Vectors along the x axis *)

Section AlongX.

#[local] Open Scope R_scope.

Import PZetaSpec.

Lemma Vect_along_x (a m : R) :
  Vect (mkPtEtaPhiM a 0 0 m) = mkXYZ a 0 0.
Proof.
  unfold Vect, Px, Py, Pz. simpl. rewrite cos_0, sin_0, sinh_0.
  rewrite (Reqb_true 0 0) by reflexivity.
  apply XYZ_eq; simpl; [ring | ring |].
  destruct (Rltb 0 a); ring.
Qed.

Lemma add3_along_x (a b : R) :
  add3 (mkXYZ a 0 0) (mkXYZ b 0 0) = mkXYZ (a + b) 0 0.
Proof. apply XYZ_eq; simpl; ring. Qed.

Lemma length_along_x (a : R) : length (mkXYZ a 0 0) = Rabs a.
Proof.
  unfold length. simpl.
  replace (a * a + 0 * 0 + 0 * 0) with (Rsqr a) by (unfold Rsqr; ring).
  apply sqrt_Rsqr_abs.
Qed.

Lemma normalize_negative_x (a : R) :
  a < 0 -> normalize (mkXYZ a 0 0) = mkXYZ (-1) 0 0.
Proof.
  intros Ha. unfold normalize. rewrite length_along_x.
  rewrite (Rabs_left a Ha). apply XYZ_eq; simpl; field; lra.
Qed.

(** Two particles of negative pt along x: the bisector points to -x. *)
Lemma pzetamissvis_negative_pt (a b c m1 m2 m3 : R) :
  a < 0 -> b < 0 ->
  pzetamissvis (mkPtEtaPhiM a 0 0 m1) (mkPtEtaPhiM b 0 0 m2)
               (mkPtEtaPhiM c 0 0 m3)
  = - c + alpha * (a + b).
Proof.
  intros Ha Hb. rewrite pzetamissvis_unfold.
  unfold pZetaMissVis_with, pZetaMiss, pZetaVis, zeta_hat, transverse_direction.
  rewrite !Vect_along_x.
  rewrite (normalize_negative_x a Ha), (normalize_negative_x b Hb).
  change (transverse (mkXYZ (-1) 0 0)) with (mkXYZ (-1) 0 0).
  rewrite (normalize_negative_x (-1)) by lra.
  rewrite !add3_along_x.
  rewrite (normalize_negative_x (-1 + -1)) by lra.
  unfold transverse, Dot. simpl. lra.
Qed.

End AlongX.

(** C3, evaluated on the code: two leptons of pt = -1 along the x axis
    are invalid, yet [pzetamissvis] computes with them: the result is
    -2 alpha = -1.7000000476837158203125 with a vanishing MET, and for
    every value of the default there is a valid MET for which the result
    differs from it. *)
Theorem pzetamissvis_computes_on_invalid :
  let bad := mkPtEtaPhiM (-1) 0 0 0 in
  (Pt bad < 0)%R /\
  pzetamissvis bad bad (mkPtEtaPhiM 0 0 0 0) = (-1.7000000476837158203125)%R /\
  pzetamissvis bad bad (mkPtEtaPhiM 1 0 0 0) = (-2.7000000476837158203125)%R /\
  forall default_float : R,
  exists met : PtEtaPhiMVector,
    (0 <= Pt met)%R /\ pzetamissvis bad bad met <> default_float.
Proof.
  cbv zeta. split; [simpl; lra|]. split; [|split].
  - rewrite pzetamissvis_negative_pt by lra. unfold alpha. lra.
  - rewrite pzetamissvis_negative_pt by lra. unfold alpha. lra.
  - intros d. destruct (Req_dec_T d (- 2 * alpha)%R) as [-> | Hd].
    + exists (mkPtEtaPhiM 1 0 0 0). split; [simpl; lra|].
      rewrite pzetamissvis_negative_pt by lra. lra.
    + exists (mkPtEtaPhiM 0 0 0 0). split; [simpl; lra|].
      rewrite pzetamissvis_negative_pt by lra. lra.
Qed.

(** ** Sums of four-vectors *)

Section FourVectorSums.

#[local] Open Scope R_scope.

Lemma add_comm (v1 v2 : PtEtaPhiMVector) : add v1 v2 = add v2 v1.
Proof.
  unfold add.
  rewrite (Rplus_comm (Px v1)), (Rplus_comm (Py v1)), (Rplus_comm (Pz v1)),
    (Rplus_comm (E v1)).
  reflexivity.
Qed.

Lemma Pt_add (v1 v2 : PtEtaPhiMVector) :
  Pt (add v1 v2)
  = sqrt ((Px v1 + Px v2) * (Px v1 + Px v2) + (Py v1 + Py v2) * (Py v1 + Py v2)).
Proof. reflexivity. Qed.

(** The sum of two four-vectors never carries the invalidity marker. *)
Lemma Pt_add_nonneg (v1 v2 : PtEtaPhiMVector) : 0 <= Pt (add v1 v2).
Proof. rewrite Pt_add. apply sqrt_pos. Qed.

Lemma M_add (v1 v2 : PtEtaPhiMVector) :
  M (add v1 v2)
  = Cartesian.M (mkXYZT (Px v1 + Px v2) (Py v1 + Py v2) (Pz v1 + Pz v2)
                        (E v1 + E v2)).
Proof. reflexivity. Qed.

Lemma Pt_add_along_x (a b m1 m2 : R) :
  0 <= a + b ->
  Pt (add (mkPtEtaPhiM a 0 0 m1) (mkPtEtaPhiM b 0 0 m2)) = a + b.
Proof.
  intros H. rewrite Pt_add. unfold Px, Py. simpl. rewrite cos_0, sin_0.
  replace ((a * 1 + b * 1) * (a * 1 + b * 1) + (a * 0 + b * 0) * (a * 0 + b * 0))
    with ((a + b) * (a + b)) by ring.
  now apply sqrt_square.
Qed.

Lemma Phi_add_along_x (a b m1 m2 : R) :
  0 < a + b ->
  Phi (add (mkPtEtaPhiM a 0 0 m1) (mkPtEtaPhiM b 0 0 m2)) = 0.
Proof.
  intros H. unfold add, SetXYZT, Phi, Cartesian.Phi, Px, Py. simpl.
  rewrite cos_0, sin_0.
  rewrite (Reqb_false (a * 1 + b * 1) 0) by lra. simpl.
  unfold atan2. rewrite (Rltb_true 0 (a * 1 + b * 1)) by lra.
  replace ((a * 0 + b * 0) / (a * 1 + b * 1)) with 0 by (field; lra).
  apply atan_0.
Qed.

(** What [mTdileptonMET] computes for two leptons along x, the first of
    which may have a negative pt. *)
Lemma mTdileptonMET_along_x (default_float a b m1 m2 : R)
      (met : PtEtaPhiMVector) :
  0 < a + b -> 0 <= Pt met ->
  mTdileptonMET default_float (mkPtEtaPhiM a 0 0 m1) (mkPtEtaPhiM b 0 0 m2) met
  = sqrt (2 * (a + b) * Pt met * (1 - cos (0 - Phi met))).
Proof.
  intros Hab Hmet. unfold mTdileptonMET, vectoroperations.calculateMT.
  cbv zeta. rewrite Pt_add_along_x by lra. rewrite Phi_add_along_x by lra.
  rewrite (Rltb_false (a + b) 0) by lra.
  rewrite (Rltb_false (Pt met) 0) by lra. reflexivity.
Qed.

End FourVectorSums.

(** C2, evaluated on the code: [mT] hands its arguments to [calculateMT]
    and so returns the default for an invalid particle; [mTdileptonMET]
    adds the two leptons first, the sum has a pt of at least zero, and the
    transverse mass is computed although a lepton is invalid: with
    leptons of pt -1 and 3 along x it is 0 for a vanishing MET and 4 for a
    MET of pt 2 at phi = pi. *)
Theorem mTdileptonMET_computes_on_invalid :
  let bad := mkPtEtaPhiM (-1) 0 0 0 in
  let good := mkPtEtaPhiM 3 0 0 0 in
  (forall (default_float : R) (p met : PtEtaPhiMVector),
     (Pt p < 0)%R -> mT default_float p met = default_float) /\
  (forall p1 p2 : PtEtaPhiMVector, (0 <= Pt (add p1 p2))%R) /\
  (Pt bad < 0)%R /\
  (forall default_float : R,
     mTdileptonMET default_float bad good (mkPtEtaPhiM 0 0 0 0) = 0%R /\
     mTdileptonMET default_float bad good (mkPtEtaPhiM 2 0 PI 0) = 4%R) /\
  (forall default_float : R,
   exists met : PtEtaPhiMVector,
     (0 <= Pt met)%R /\ mTdileptonMET default_float bad good met <> default_float).
Proof.
  cbv zeta.
  assert (Hzero : forall d : R,
             mTdileptonMET d (mkPtEtaPhiM (-1) 0 0 0) (mkPtEtaPhiM 3 0 0 0)
                           (mkPtEtaPhiM 0 0 0 0) = 0%R).
  { intros d. rewrite mTdileptonMET_along_x; [| lra | simpl; lra]. simpl.
    replace (2 * (-1 + 3) * 0 * (1 - cos (0 - 0)))%R with 0%R by ring.
    apply sqrt_0. }
  assert (Hfour : forall d : R,
             mTdileptonMET d (mkPtEtaPhiM (-1) 0 0 0) (mkPtEtaPhiM 3 0 0 0)
                           (mkPtEtaPhiM 2 0 PI 0) = 4%R).
  { intros d. rewrite mTdileptonMET_along_x; [| lra | simpl; lra]. simpl.
    replace (0 - PI)%R with (- PI)%R by ring. rewrite cos_neg, cos_PI.
    replace (2 * (-1 + 3) * 2 * (1 - -1))%R with (4 * 4)%R by ring.
    apply sqrt_square. lra. }
  split; [|split; [|split; [|split]]].
  - intros d p met Hp. unfold mT, vectoroperations.calculateMT.
    now rewrite (Rltb_true (Pt p) 0 Hp).
  - apply Pt_add_nonneg.
  - simpl. lra.
  - intros d. split; [apply Hzero | apply Hfour].
  - intros d. destruct (Req_dec_T d 0%R) as [-> | Hd].
    + exists (mkPtEtaPhiM 2 0 PI 0). split; [simpl; lra|].
      rewrite Hfour. lra.
    + exists (mkPtEtaPhiM 0 0 0 0). split; [simpl; lra|].
      rewrite Hzero. auto.
Qed.

(** ** Visible mass *)

(** C9: for two valid four-vectors [m_vis] is symmetric, and it is the
    invariant mass of the sum of the two four-momenta. *)
Theorem m_vis_symmetric (float_of_double : R -> R) (default_float : R)
        (v1 v2 : PtEtaPhiMVector) :
  (0 <= Pt v1)%R -> (0 <= Pt v2)%R ->
  m_vis float_of_double default_float v1 v2
  = m_vis float_of_double default_float v2 v1 /\
  m_vis float_of_double default_float v1 v2 = float_of_double (M (add v1 v2)) /\
  m_vis float_of_double default_float v1 v2
  = float_of_double
      (Cartesian.M (mkXYZT (Px v1 + Px v2) (Py v1 + Py v2) (Pz v1 + Pz v2)
                           (E v1 + E v2))) /\
  (let e := (E v1 + E v2)%R in
   let px := (Px v1 + Px v2)%R in
   let py := (Py v1 + Py v2)%R in
   let pz := (Pz v1 + Pz v2)%R in
   (0 <= e * e - px * px - py * py - pz * pz)%R ->
   m_vis float_of_double default_float v1 v2
   = float_of_double (sqrt (e * e - px * px - py * py - pz * pz))).
Proof.
  intros H1 H2. unfold m_vis. cbv zeta.
  rewrite (Rltb_false (Pt v1) 0 H1), (Rltb_false (Pt v2) 0 H2). cbn [orb].
  split; [now rewrite (add_comm v1 v2)|]. split; [reflexivity|].
  split; [reflexivity|].
  intros Hmm. rewrite M_add. unfold Cartesian.M, Cartesian.M2.
  cbn [fX fY fZ fT]. now rewrite (Rleb_true _ _ Hmm).
Qed.

(** The vectors of the specification's scenario. *)
Lemma m_vis_symmetric_scenario :
  m_vis (fun x => x) (-10) (mkPtEtaPhiM 40 1 0.5 0.1)
        (mkPtEtaPhiM 30 (-0.5) 2 0.1)
  = m_vis (fun x => x) (-10) (mkPtEtaPhiM 30 (-0.5) 2 0.1)
          (mkPtEtaPhiM 40 1 0.5 0.1).
Proof.
  apply (m_vis_symmetric (fun x => x) (-10) (mkPtEtaPhiM 40 1 0.5 0.1)
                         (mkPtEtaPhiM 30 (-0.5) 2 0.1)); simpl; lra.
Defined.

(** ** The association chains return *)

Section ChainsReturn.

#[local] Open Scope Z_scope.

Variable default_float : R.



End ChainsReturn.

(** ** Further properties of the composite quantities *)

Section Composite.

#[local] Open Scope R_scope.

Lemma add3_comm (v w : XYZVector) : add3 v w = add3 w v.
Proof. apply XYZ_eq; simpl; ring. Qed.

Lemma cos2_sin2 (x : R) : cos x * cos x + sin x * sin x = 1.
Proof. pose proof (sin2_cos2 x) as H. unfold Rsqr in H. lra. Qed.

End Composite.

(** X1: [pzetamissvis] does not change when the two particles are swapped. *)
Theorem pzetamissvis_swap (p1 p2 met : PtEtaPhiMVector) :
  pzetamissvis p1 p2 met = pzetamissvis p2 p1 met.
Proof.
  unfold pzetamissvis. cbv zeta.
  rewrite (add3_comm (Unit (SetZ (Unit (Vect p1)) 0))),
    (add3_comm (Vect p1)).
  reflexivity.
Qed.

(** X2: [m_vis] returns the default when either four-vector is invalid. *)
Theorem m_vis_invalid_default (float_of_double : R -> R) (default_float : R)
        (v1 v2 : PtEtaPhiMVector) :
  (Pt v1 < 0 \/ Pt v2 < 0)%R ->
  m_vis float_of_double default_float v1 v2 = default_float.
Proof.
  intros [H | H]; unfold m_vis.
  - now rewrite (Rltb_true (Pt v1) 0 H).
  - rewrite (Rltb_true (Pt v2) 0 H). now rewrite orb_true_r.
Qed.

Lemma m_vis_invalid_default_example :
  m_vis (fun x => x) (-10) (mkPtEtaPhiM 40 1 0.5 0.1)
        (mkPtEtaPhiM (-10) (-10) (-10) (-10))
  = (-10)%R.
Proof.
  apply (m_vis_invalid_default (fun x => x) (-10) (mkPtEtaPhiM 40 1 0.5 0.1)
                               (mkPtEtaPhiM (-10) (-10) (-10) (-10))).
  right. simpl. lra.
Defined.

(** ** Lookups at any position *)

Section AnyPosition.

#[local] Open Scope Z_scope.

Context {T : Type}.

Lemma at_returns_iff (v : RVec T) (i : int) :
  is_int i -> size_ok v ->
  (returns (at_ v (size_type_of_int i)) = true <-> 0 <= i < size v).
Proof.
  intros Hi Hv. split.
  - intros Hret. destruct (Z_le_dec 0 i) as [H0 | H0].
    + destruct (Z_lt_dec i (size v)) as [H1 | H1]; [lia|].
      rewrite at_past_end in Hret; [discriminate | unfold is_int in Hi; lia | lia].
    + exfalso. rewrite (size_type_of_int_neg i Hi) in Hret by lia.
      unfold at_ in Hret. unfold size_ok, max_size in Hv. unfold is_int in Hi.
      destruct (Z.leb_spec (size v) (i + 2 ^ 64)); [discriminate | lia].
  - intros Hr. destruct (at_in_range v i Hr) as [x [_ Hat]].
    + unfold is_int in Hi. lia.
    + now rewrite Hat.
Qed.

Lemma at_entry (v : RVec T) (i : int) (x : T) :
  is_int i -> entry v i x -> at_ v (size_type_of_int i) = Ok x.
Proof.
  intros Hi [H0 Hn].
  assert (Hr : 0 <= i < size v).
  { split; [exact H0|]. unfold size.
    assert (Z.to_nat i < length v)%nat by (apply nth_error_Some; congruence). lia. }
  destruct (at_in_range v i Hr) as [y [Hy Hat]]; [unfold is_int in Hi; lia|].
  rewrite Hat. congruence.
Qed.

Lemma at_or_entry (v : RVec T) (i : int) (x fallback : T) :
  is_int i -> entry v i x -> at_or v (size_type_of_int i) fallback = x.
Proof.
  intros Hi [H0 Hn].
  assert (Hr : 0 <= i < size v).
  { split; [exact H0|]. unfold size.
    assert (Z.to_nat i < length v)%nat by (apply nth_error_Some; congruence). lia. }
  destruct (at_or_in_range v i fallback Hr) as [y [Hy Hat]]; [unfold is_int in Hi; lia|].
  rewrite Hat. congruence.
Qed.

Lemma get_member (v : RVec T) (pos : size_type) (x : T) :
  get v pos = Some x -> In x v.
Proof. unfold get. apply nth_error_In. Qed.

Lemma at_member (v : RVec T) (pos : size_type) (x : T) :
  at_ v pos = Ok x -> In x v.
Proof.
  unfold at_. destruct (size v <=? pos); [discriminate|].
  destruct (get v pos) as [y|] eqn:E; [|discriminate].
  intros H. injection H as <-. now apply (get_member v pos).
Qed.

Lemma at_or_default_or_member (v : RVec T) (pos : size_type) (fallback : T) :
  at_or v pos fallback = fallback \/ In (at_or v pos fallback) v.
Proof.
  unfold at_or. destruct (size v <=? pos); [now left|].
  destruct (get v pos) as [y|] eqn:E; [|now left].
  right. now apply (get_member v pos).
Qed.

Lemma at_map {U : Type} (f : T -> U) (v : RVec T) (pos : size_type) :
  at_ (map f v) pos
  = match at_ v pos with
    | Ok x => Ok (f x)
    | Throw e => Throw e
    end.
Proof.
  unfold at_, size, get. rewrite length_map, nth_error_map.
  destruct (Z.of_nat (length v) <=? pos); [reflexivity|].
  destruct (nth_error v (Z.to_nat pos)); reflexivity.
Qed.

End AnyPosition.

Section LookupAnyPosition.

#[local] Open Scope Z_scope.

Context {T : Type}.

Lemma indexed_lookup_default_or_member (default : T) (position : int)
      (pair : RVec int) (attrs : RVec T) (x : T) :
  indexed_lookup default position pair attrs = Ok x ->
  x = default \/ In x attrs.
Proof.
  unfold indexed_lookup.
  destruct (at_ pair (size_type_of_int position)) as [idx | e]; [|discriminate].
  cbn [bind ret]. intros H. injection H as <-.
  apply at_or_default_or_member.
Qed.

Lemma indexed_lookup_returns_iff (default : T) (position : int)
      (pair : RVec int) (attrs : RVec T) :
  is_int position -> size_ok pair ->
  (returns (indexed_lookup default position pair attrs) = true
   <-> 0 <= position < size pair).
Proof.
  intros Hi Hv. rewrite <- (at_returns_iff pair position Hi Hv).
  unfold indexed_lookup.
  destruct (at_ pair (size_type_of_int position)); reflexivity.
Qed.

End LookupAnyPosition.

(** X4: a lookup that returns gives the default or a value stored in the
    array it reads last; this holds for every position, pair vector and
    array, whatever the indices are. *)
Theorem lookup_default_or_member
        (default_float : R) (default_int default_pdgid : int)
        (default_uchar : UChar_t) (position : int) (pair : RVec int) :
  (forall (a : RVec R) (x : R),
     (dxy default_float position pair a = Ok x -> x = default_float \/ In x a) /\
     (dz default_float position pair a = Ok x -> x = default_float \/ In x a) /\
     (isolation default_float position pair a = Ok x ->
      x = default_float \/ In x a)) /\
  (forall (a : RVec int) (x : int),
     (charge default_int position pair a = Ok x -> x = default_int \/ In x a) /\
     (tau.decaymode default_int position pair a = Ok x ->
      x = default_int \/ In x a) /\
     (pdgid default_pdgid position pair a = Ok x ->
      x = default_pdgid \/ In x a)) /\
  (forall (a : RVec UChar_t) (x : UChar_t),
     tau.genmatch default_uchar position pair a = Ok x ->
     x = default_uchar \/ In x a) /\
  (forall (taujets : RVec int) (jetpt : RVec R) (x : R),
     tau.matching_jet_pt default_float position pair taujets jetpt = Ok x ->
     x = default_float \/ In x jetpt) /\
  (forall (taujets genjets : RVec int) (genjetpt : RVec R) (x : R),
     tau.matching_genjet_pt default_float position pair taujets genjets genjetpt
     = Ok x ->
     x = default_float \/ In x genjetpt).
Proof.
  repeat split; intros;
    try (eapply indexed_lookup_default_or_member; eassumption).
  - unfold tau.matching_jet_pt in H.
    destruct (at_ pair (size_type_of_int position)); [|discriminate].
    cbn [bind ret] in H. injection H as <-. apply at_or_default_or_member.
  - unfold tau.matching_genjet_pt in H.
    destruct (at_ pair (size_type_of_int position)); [|discriminate].
    cbn [bind ret] in H. injection H as <-. apply at_or_default_or_member.
Qed.

(** X5: for a position that is an [int] and a pair vector of admissible
    size, every lookup and chain returns exactly when the position is an
    index of the pair vector; a negative position throws like one past the
    end. *)
Theorem lookup_returns_iff_position_in_pair
        (default_float : R) (default_int default_pdgid : int)
        (default_uchar : UChar_t) (position : int) (pair : RVec int) :
  is_int position -> size_ok pair ->
  (forall a : RVec R,
     (returns (dxy default_float position pair a) = true
      <-> (0 <= position < size pair)%Z) /\
     (returns (dz default_float position pair a) = true
      <-> (0 <= position < size pair)%Z) /\
     (returns (isolation default_float position pair a) = true
      <-> (0 <= position < size pair)%Z)) /\
  (forall a : RVec int,
     (returns (charge default_int position pair a) = true
      <-> (0 <= position < size pair)%Z) /\
     (returns (tau.decaymode default_int position pair a) = true
      <-> (0 <= position < size pair)%Z) /\
     (returns (pdgid default_pdgid position pair a) = true
      <-> (0 <= position < size pair)%Z)) /\
  (forall a : RVec UChar_t,
     returns (tau.genmatch default_uchar position pair a) = true
     <-> (0 <= position < size pair)%Z) /\
  (forall (taujets : RVec int) (jetpt : RVec R),
     returns (tau.matching_jet_pt default_float position pair taujets jetpt)
     = true <-> (0 <= position < size pair)%Z) /\
  (forall (taujets genjets : RVec int) (genjetpt : RVec R),
     returns (tau.matching_genjet_pt default_float position pair taujets
                                     genjets genjetpt) = true
     <-> (0 <= position < size pair)%Z).
Proof.
  intros Hi Hv.
  assert (Hchain2 : forall (taujets : RVec int) (jetpt : RVec R),
             returns (tau.matching_jet_pt default_float position pair taujets jetpt)
             = returns (at_ pair (size_type_of_int position))).
  { intros. unfold tau.matching_jet_pt.
    destruct (at_ pair (size_type_of_int position)); reflexivity. }
  assert (Hchain3 : forall (taujets genjets : RVec int) (genjetpt : RVec R),
             returns (tau.matching_genjet_pt default_float position pair taujets
                                             genjets genjetpt)
             = returns (at_ pair (size_type_of_int position))).
  { intros. unfold tau.matching_genjet_pt.
    destruct (at_ pair (size_type_of_int position)); reflexivity. }
  split; [|split; [|split; [|split]]].
  - intros a. repeat apply conj;
      apply (indexed_lookup_returns_iff default_float position pair a Hi Hv).
  - intros a. split; [|split].
    + apply (indexed_lookup_returns_iff default_int position pair a Hi Hv).
    + apply (indexed_lookup_returns_iff default_int position pair a Hi Hv).
    + apply (indexed_lookup_returns_iff default_pdgid position pair a Hi Hv).
  - intros a.
    apply (indexed_lookup_returns_iff default_uchar position pair a Hi Hv).
  - intros. rewrite Hchain2. now apply at_returns_iff.
  - intros. rewrite Hchain3. now apply at_returns_iff.
Qed.

(** A negative position and a position past the end. *)
Lemma lookup_returns_iff_position_in_pair_example :
  returns (dxy (-10) (-1) [2; -1]%Z [0.1; 0.2; 0.3]%R) = false /\
  returns (tau.genmatch 0 2 [2; -1]%Z [5; 1; 3]%Z) = false /\
  returns (charge (-10) 1 [2; -1]%Z [1; -1; 1]%Z) = true.
Proof.
  assert (Hv : size_ok [2; -1]%Z).
  { unfold size_ok, size, max_size. simpl. lia. }
  split; [|split].
  - destruct (lookup_returns_iff_position_in_pair (-10) (-10) 0 0 (-1) [2; -1]%Z)
      as [Hfloat _]; [unfold is_int; lia | exact Hv |].
    destruct (returns (dxy (-10) (-1) [2; -1]%Z [0.1; 0.2; 0.3]%R)) eqn:Hret;
      [|reflexivity].
    exfalso. destruct (Hfloat [0.1; 0.2; 0.3]%R) as [[Hin _] _].
    specialize (Hin Hret). lia.
  - destruct (lookup_returns_iff_position_in_pair (-10) (-10) 0 0 2 [2; -1]%Z)
      as [_ [_ [Huchar _]]]; [unfold is_int; lia | exact Hv |].
    destruct (returns (tau.genmatch 0 2 [2; -1]%Z [5; 1; 3]%Z)) eqn:Hret;
      [|reflexivity].
    exfalso. destruct (Huchar [5; 1; 3]%Z) as [Hin _]. specialize (Hin Hret).
    unfold size in Hin. simpl in Hin. lia.
  - destruct (lookup_returns_iff_position_in_pair (-10) (-10) 0 0 1 [2; -1]%Z)
      as [_ [Hint _]]; [unfold is_int; lia | exact Hv |].
    destruct (Hint [1; -1; 1]%Z) as [Hcharge _].
    apply Hcharge. unfold size. simpl. lia.
Defined.

(** X6: when every hop of the chain lands on an entry, the chain returns
    the pt stored for the jet it reaches: jetpt[taujets[pair[position]]]
    for two hops, genjetpt[genjets[taujets[pair[position]]]] for three. *)
Theorem association_chain_resolves
        (default_float : R) (position : int) (pair taujets : RVec int)
        (tauindex jetindex : int) :
  is_int position ->
  Forall is_int pair ->
  Forall is_int taujets ->
  entry pair position tauindex ->
  entry taujets tauindex jetindex ->
  (forall (jetpt : RVec R) (x : R),
     entry jetpt jetindex x ->
     tau.matching_jet_pt default_float position pair taujets jetpt = Ok x) /\
  (forall (genjets : RVec int) (genjetpt : RVec R) (genjetindex : int) (x : R),
     Forall is_int genjets ->
     entry genjets jetindex genjetindex ->
     entry genjetpt genjetindex x ->
     tau.matching_genjet_pt default_float position pair taujets genjets genjetpt
     = Ok x).
Proof.
  intros Hpos Hpair Htj Htau Hjet.
  assert (Hti : is_int tauindex).
  { destruct Htau as [_ Hn]. exact (Forall_is_int_entry pair _ _ Hpair Hn). }
  assert (Hji : is_int jetindex).
  { destruct Hjet as [_ Hn]. exact (Forall_is_int_entry taujets _ _ Htj Hn). }
  split.
  - intros jetpt x Hx. unfold tau.matching_jet_pt.
    rewrite (at_entry pair position tauindex Hpos Htau). cbn [bind ret].
    rewrite (at_or_entry taujets tauindex jetindex (-1)%Z Hti Hjet).
    now rewrite (at_or_entry jetpt jetindex x default_float Hji Hx).
  - intros genjets genjetpt genjetindex x Hgj Hgen Hx.
    assert (Hgi : is_int genjetindex).
    { destruct Hgen as [_ Hn]. exact (Forall_is_int_entry genjets _ _ Hgj Hn). }
    unfold tau.matching_genjet_pt.
    rewrite (at_entry pair position tauindex Hpos Htau). cbn [bind ret].
    rewrite (at_or_entry taujets tauindex jetindex (-1)%Z Hti Hjet).
    rewrite (at_or_entry genjets jetindex genjetindex (-1)%Z Hji Hgen).
    now rewrite (at_or_entry genjetpt genjetindex x default_float Hgi Hx).
Qed.

(** The second tau of the pair, matched to jet 2, whose generator jet
    is 0. *)
Lemma association_chain_resolves_example :
  tau.matching_jet_pt (-10) 1 [0; 1]%Z [3; 2]%Z [50; 40; 30; 20]%R = Ok 30%R /\
  tau.matching_genjet_pt (-10) 1 [0; 1]%Z [3; 2]%Z [-1; -1; 0; 1]%Z
                         [45.5; 18.25]%R = Ok 45.5%R.
Proof.
  destruct (association_chain_resolves (-10) 1 [0; 1]%Z [3; 2]%Z 1 2)
    as [Htwo Hthree].
  - unfold is_int. lia.
  - repeat constructor; unfold is_int; lia.
  - repeat constructor; unfold is_int; lia.
  - split; [lia | reflexivity].
  - split; [lia | reflexivity].
  - split.
    + apply Htwo. split; [lia | reflexivity].
    + apply (Hthree [-1; -1; 0; 1]%Z [45.5; 18.25]%R 0%Z).
      * repeat constructor; unfold is_int; lia.
      * split; [lia | reflexivity].
      * split; [lia | reflexivity].
Defined.

(** X7: a chain is a plain lookup through the pair vector mapped along
    the association: the two-hop chain looks the jet pt up through the
    jet indices of the pair, the three-hop chain is the two-hop chain
    through them. *)
Theorem association_chain_composes
        (default_float : R) (position : int) (pair taujets genjets : RVec int)
        (pts : RVec R) :
  tau.matching_jet_pt default_float position pair taujets pts
  = isolation default_float position (map (follow taujets) pair) pts /\
  tau.matching_genjet_pt default_float position pair taujets genjets pts
  = tau.matching_jet_pt default_float position (map (follow taujets) pair)
                        genjets pts /\
  tau.matching_genjet_pt default_float position pair taujets genjets pts
  = isolation default_float position
              (map (follow genjets) (map (follow taujets) pair)) pts.
Proof.
  unfold tau.matching_jet_pt, tau.matching_genjet_pt, isolation.
  rewrite !at_map.
  destruct (at_ pair (size_type_of_int position)); repeat split.
Qed.

(** ** pZetaMissVis for particles of positive pt *)

Section PZetaTransverse.

#[local] Open Scope R_scope.

Import PZetaSpec.

Lemma momentum_length_positive (p : PtEtaPhiMVector) :
  0 < fPt p -> 0 < length (Vect p).
Proof.
  intros Hpt. unfold length. apply sqrt_lt_R0. cbn [Vect Vx Vy Vz].
  unfold Px, Py. pose proof (cos2_sin2 (fPhi p)) as Hcs.
  assert (Hsq : fPt p * cos (fPhi p) * (fPt p * cos (fPhi p))
                + fPt p * sin (fPhi p) * (fPt p * sin (fPhi p))
                = fPt p * fPt p).
  { replace (fPt p * cos (fPhi p) * (fPt p * cos (fPhi p))
             + fPt p * sin (fPhi p) * (fPt p * sin (fPhi p)))
      with (fPt p * fPt p * (cos (fPhi p) * cos (fPhi p)
                             + sin (fPhi p) * sin (fPhi p))) by ring.
    rewrite Hcs. ring. }
  rewrite Hsq. nra.
Qed.

(** The direction of a particle in the transverse plane is given by its
    azimuth alone. *)
Lemma transverse_direction_positive_pt (p : PtEtaPhiMVector) :
  0 < fPt p ->
  transverse_direction p = mkXYZ (cos (fPhi p)) (sin (fPhi p)) 0.
Proof.
  intros Hpt. pose proof (momentum_length_positive p Hpt) as HL.
  unfold transverse_direction.
  set (L := length (Vect p)) in *.
  assert (Hn : normalize (Vect p) = mkXYZ (Px p / L) (Py p / L) (Pz p / L))
    by reflexivity.
  rewrite Hn. unfold transverse. cbn [Vx Vy Vz].
  assert (Hlen : length (mkXYZ (Px p / L) (Py p / L) 0) = fPt p / L).
  { unfold length. cbn [Vx Vy Vz]. unfold Px, Py.
    pose proof (cos2_sin2 (fPhi p)) as Hcs.
    replace (fPt p * cos (fPhi p) / L * (fPt p * cos (fPhi p) / L)
             + fPt p * sin (fPhi p) / L * (fPt p * sin (fPhi p) / L) + 0 * 0)
      with ((fPt p / L) * (fPt p / L)
            * (cos (fPhi p) * cos (fPhi p) + sin (fPhi p) * sin (fPhi p)))
      by (field; lra).
    rewrite Hcs, Rmult_1_r. apply sqrt_square.
    apply Rlt_le. apply Rdiv_lt_0_compat; assumption. }
  unfold normalize. rewrite Hlen. cbn [Vx Vy Vz].
  apply XYZ_eq; cbn [Vx Vy Vz]; unfold Px, Py; field; lra.
Qed.

Lemma pZetaMissVis_transverse (a : R) (p1 p2 met : PtEtaPhiMVector) :
  0 < fPt p1 -> 0 < fPt p2 ->
  pZetaMissVis_with a p1 p2 met
  = pzeta_transverse a (fPt p1) (fPhi p1) (fPt p2) (fPhi p2)
                     (fPt met) (fPhi met).
Proof.
  intros H1 H2.
  unfold pZetaMissVis_with, pZetaMiss, pZetaVis, zeta_hat.
  rewrite (transverse_direction_positive_pt p1 H1),
    (transverse_direction_positive_pt p2 H2).
  unfold pzeta_transverse. cbv zeta.
  set (zx := cos (fPhi p1) + cos (fPhi p2)).
  set (zy := sin (fPhi p1) + sin (fPhi p2)).
  assert (Hlen : length (add3 (mkXYZ (cos (fPhi p1)) (sin (fPhi p1)) 0)
                              (mkXYZ (cos (fPhi p2)) (sin (fPhi p2)) 0))
                 = sqrt (zx * zx + zy * zy)).
  { unfold length, add3. cbn [Vx Vy Vz]. fold zx zy. f_equal. ring. }
  unfold normalize. rewrite Hlen.
  unfold Dot, transverse, add3, Vect. cbn [Vx Vy Vz]. fold zx zy.
  unfold Px, Py, Rdiv. ring.
Qed.

End PZetaTransverse.

(** For two particles of positive pt with the same azimuth the bisector
    is their common direction. *)
Lemma pZetaMissVis_same_azimuth (a : R) (p1 p2 met : PtEtaPhiMVector) :
  (0 < fPt p1)%R -> (0 < fPt p2)%R -> fPhi p2 = fPhi p1 ->
  PZetaSpec.pZetaMissVis_with a p1 p2 met
  = (fPt met * cos (fPhi met - fPhi p1) - a * (fPt p1 + fPt p2))%R.
Proof.
  intros H1 H2 Hphi. rewrite (pZetaMissVis_transverse a p1 p2 met H1 H2).
  unfold pzeta_transverse. cbv zeta. rewrite Hphi.
  pose proof (cos2_sin2 (fPhi p1)) as Hcs.
  assert (Hn : sqrt ((cos (fPhi p1) + cos (fPhi p1)) * (cos (fPhi p1) + cos (fPhi p1))
                     + (sin (fPhi p1) + sin (fPhi p1)) * (sin (fPhi p1) + sin (fPhi p1)))
               = 2%R).
  { replace ((cos (fPhi p1) + cos (fPhi p1)) * (cos (fPhi p1) + cos (fPhi p1))
             + (sin (fPhi p1) + sin (fPhi p1)) * (sin (fPhi p1) + sin (fPhi p1)))%R
      with (2 * 2 * (cos (fPhi p1) * cos (fPhi p1) + sin (fPhi p1) * sin (fPhi p1)))%R
      by ring.
    rewrite Hcs, Rmult_1_r. apply sqrt_square. lra. }
  rewrite Hn, cos_minus.
  replace (a * (fPt p1 + fPt p2))%R
    with (a * (fPt p1 + fPt p2)
          * (cos (fPhi p1) * cos (fPhi p1) + sin (fPhi p1) * sin (fPhi p1)))%R
    by (rewrite Hcs; ring).
  field.
Qed.

(** ** The machine numbers *)

Section MachineNumbers.











Lemma shr_1_iter_xO (p m : positive) :
  iter_pos shr_1 p (Build_shr_record (Zpos (Pos.iter xO m p)) false false)
  = Build_shr_record (Zpos m) false false.
Proof.
  revert m. induction p as [p IH | p IH |]; intros m; simpl.
  - now rewrite !IH.
  - now rewrite !IH.
  - reflexivity.
Qed.

Lemma digits2_pos_iter_xO (p m : positive) :
  Zpos (digits2_pos (Pos.iter xO m p)) = (Zpos (digits2_pos m) + Zpos p)%Z.
Proof.
  revert m. induction p as [p IH | p IH |]; intros m; simpl.
  - rewrite Pos2Z.inj_succ, !IH. lia.
  - rewrite !IH. lia.
  - lia.
Qed.

(** A mantissa that is already canonical is not rounded. *)
Lemma binary_round_aux_canonical (prec emax : Z) (s : bool) (m : positive)
      (e : Z) :
  bounded prec emax m e = true ->
  binary_round_aux prec emax s (Zpos m) e loc_Exact = S754_finite s m e.
Proof.
  unfold bounded, canonical_mantissa. intros H.
  apply andb_prop in H as [Hc He]. apply Z.eqb_eq in Hc.
  assert (H1 : shr_fexp prec emax (Zpos m) e loc_Exact
               = (Build_shr_record (Zpos m) false false, e)).
  { unfold shr_fexp. cbn [Zdigits2]. rewrite Hc, Z.sub_diag. reflexivity. }
  unfold binary_round_aux. rewrite H1.
  cbn [shr_m loc_of_shr_record round_nearest_even]. rewrite H1.
  cbn [shr_m]. now rewrite He.
Qed.

(** Nor is one that is canonical once its trailing zeros are dropped. *)
Lemma binary_round_shifted (prec emax : Z) (s : bool) (m p : positive) (e : Z) :
  bounded prec emax m e = true ->
  binary_round prec emax s (Pos.iter xO m p) (e - Zpos p) = S754_finite s m e.
Proof.
  intros H. unfold bounded, canonical_mantissa in H.
  apply andb_prop in H as [Hc He]. apply Z.eqb_eq in Hc.
  unfold binary_round.
  assert (Hd : (Zpos (digits2_pos (Pos.iter xO m p)) + (e - Zpos p)
                = Zpos (digits2_pos m) + e)%Z)
    by (rewrite digits2_pos_iter_xO; lia).
  rewrite Hd, Hc. unfold shl_align.
  replace (e - (e - Zpos p))%Z with (Zpos p) by lia.
  assert (H1 : shr_fexp prec emax (Zpos (Pos.iter xO m p)) (e - Zpos p) loc_Exact
               = (Build_shr_record (Zpos m) false false, e)).
  { unfold shr_fexp. cbn [Zdigits2]. rewrite Hd, Hc.
    replace (e - (e - Zpos p))%Z with (Zpos p) by lia.
    unfold shr. cbn [shr_record_of_loc]. rewrite shr_1_iter_xO.
    f_equal. lia. }
  assert (H2 : shr_fexp prec emax (Zpos m) e loc_Exact
               = (Build_shr_record (Zpos m) false false, e)).
  { unfold shr_fexp. cbn [Zdigits2]. rewrite Hc, Z.sub_diag. reflexivity. }
  unfold binary_round_aux. rewrite H1.
  cbn [shr_m loc_of_shr_record round_nearest_even]. rewrite H2.
  cbn [shr_m]. now rewrite He.
Qed.

(** The promotion of a [float] only appends zeros to the mantissa. *)
Lemma binary_round_promote (s : bool) (m : positive) (e : Z) :
  bounded 24 128 m e = true ->
  exists p,
    binary_round 53 1024 s m e = S754_finite s (Pos.iter xO m p) (e - Zpos p).
Proof.
  intros H. unfold bounded, canonical_mantissa in H.
  apply andb_prop in H as [Hc He]. apply Z.eqb_eq in Hc. apply Z.leb_le in He.
  unfold fexp, emin in Hc.
  pose proof (Pos2Z.is_pos (digits2_pos m)) as Hpos.
  set (d := Zpos (digits2_pos m)) in *.
  set (e2 := fexp 53 1024 (d + e)).
  assert (He2 : (e2 < e)%Z) by (unfold e2, fexp, emin; lia).
  assert (He2lo : (e2 <= 1024 - 53)%Z) by lia.
  destruct (e - e2)%Z as [|p|p] eqn:Ep; try lia.
  exists p. unfold binary_round. fold d. fold e2.
  unfold shl_align. replace (e2 - e)%Z with (Zneg p) by lia.
  replace (e - Zpos p)%Z with e2 by lia.
  apply binary_round_aux_canonical.
  unfold bounded, canonical_mantissa. rewrite digits2_pos_iter_xO. fold d.
  replace (d + Zpos p + e2)%Z with (d + e)%Z by lia. fold e2.
  rewrite Z.eqb_refl. simpl. now apply Z.leb_le.
Qed.

(** Narrowing gives back every [float] that was promoted to [double]. *)
Lemma float_of_double_of_float (f : IEEE.float) :
  valid_binary 24 128 f = true ->
  IEEE.float_of_double (IEEE.double_of_float f) = f.
Proof.
  destruct f as [s | s | | s m e]; try reflexivity.
  intros H. simpl in H.
  destruct (binary_round_promote s m e H) as [p Hp].
  unfold IEEE.double_of_float.
  assert (Hn : binary_normalize 53 1024 (cond_Zopp s (Zpos m)) e s
               = binary_round 53 1024 s m e)
    by (destruct s; reflexivity).
  rewrite Hn, Hp. unfold IEEE.float_of_double.
  assert (Hn' : forall m' e',
             binary_normalize 24 128 (cond_Zopp s (Zpos m')) e' s
             = binary_round 24 128 s m' e')
    by (destruct s; reflexivity).
  rewrite Hn'. now apply binary_round_shifted.
Qed.

End MachineNumbers.

(** ** pZetaMissVis on the machine numbers *)

Section MachineVectors.

Variables cos sin sinh : IEEE.double -> IEEE.double.

Lemma Vect_at_zero_angles (pt m : IEEE.double) :
  IEEE.exact_at_zero cos sin sinh ->
  IEEE.Vect cos sin sinh (IEEE.mkPtEtaPhiM pt IEEE.zero IEEE.zero m)
  = IEEE.mkXYZ (IEEE.dmul pt IEEE.one) (IEEE.dmul pt IEEE.zero)
               (if IEEE.dltb IEEE.zero pt then IEEE.dmul pt IEEE.zero
                else IEEE.zero).
Proof.
  intros [Hc [Hs Hh]]. unfold IEEE.Vect, IEEE.Px, IEEE.Py, IEEE.Pz.
  cbn [IEEE.fPt IEEE.fEta IEEE.fPhi]. rewrite Hc, Hs, Hh. reflexivity.
Qed.








(** Two particles of pt = 1e308 along x: the squared length overflows,
    [Unit] gives the zero vector, and the infinite visible momentum times
    zero is not a number. *)
Lemma pzetamissvis_overflow :
  IEEE.exact_at_zero cos sin sinh ->
  IEEE.pzetamissvis cos sin sinh
    (IEEE.mkPtEtaPhiM (IEEE.double_of_Z (10 ^ 308)) IEEE.zero IEEE.zero IEEE.zero)
    (IEEE.mkPtEtaPhiM (IEEE.double_of_Z (10 ^ 308)) IEEE.zero IEEE.zero IEEE.zero)
    (IEEE.mkPtEtaPhiM (IEEE.double_of_Z 1) IEEE.zero IEEE.zero IEEE.zero)
  = S754_nan.
Proof.
  intros H. unfold IEEE.pzetamissvis. cbv zeta.
  rewrite !(Vect_at_zero_angles _ _ H). vm_compute. reflexivity.
Qed.

(** Leptons of pt 40 and 30 and a MET of pt 10, all along x. *)
Lemma pzetamissvis_along_x_machine :
  IEEE.exact_at_zero cos sin sinh ->
  IEEE.pzetamissvis cos sin sinh
    (IEEE.mkPtEtaPhiM (IEEE.double_of_Z 40) IEEE.zero IEEE.zero IEEE.zero)
    (IEEE.mkPtEtaPhiM (IEEE.double_of_Z 30) IEEE.zero IEEE.zero IEEE.zero)
    (IEEE.mkPtEtaPhiM (IEEE.double_of_Z 10) IEEE.zero IEEE.zero IEEE.zero)
  = S754_finite true 6966505908469760 (-47).
Proof.
  intros H. unfold IEEE.pzetamissvis. cbv zeta.
  rewrite !(Vect_at_zero_angles _ _ H). vm_compute. reflexivity.
Qed.

(** Two particles of pt = 2^-700 along x and a MET of pt 10: the squared
    lengths underflow to zero, every [Unit] hands its vector back
    unnormalized, and the result is 10 * 2^-699. *)
Lemma pzetamissvis_underflow :
  IEEE.exact_at_zero cos sin sinh ->
  IEEE.pzetamissvis cos sin sinh
    (IEEE.mkPtEtaPhiM (IEEE.double_of_scaled 1 (-700)) IEEE.zero IEEE.zero IEEE.zero)
    (IEEE.mkPtEtaPhiM (IEEE.double_of_scaled 1 (-700)) IEEE.zero IEEE.zero IEEE.zero)
    (IEEE.mkPtEtaPhiM (IEEE.double_of_Z 10) IEEE.zero IEEE.zero IEEE.zero)
  = S754_finite false 5629499534213120 (-748).
Proof.
  intros H. unfold IEEE.pzetamissvis. cbv zeta.
  rewrite !(Vect_at_zero_angles _ _ H). vm_compute. reflexivity.
Qed.


Lemma lengths_nonzero_at_zero_angles (pt1 pt2 : IEEE.double) :
  IEEE.exact_at_zero cos sin sinh ->
  PZetaMachine.lengths_nonzero cos sin sinh
    (IEEE.mkPtEtaPhiM pt1 IEEE.zero IEEE.zero IEEE.zero)
    (IEEE.mkPtEtaPhiM pt2 IEEE.zero IEEE.zero IEEE.zero)
  = let v1 := IEEE.mkXYZ (IEEE.dmul pt1 IEEE.one) (IEEE.dmul pt1 IEEE.zero)
                (if IEEE.dltb IEEE.zero pt1 then IEEE.dmul pt1 IEEE.zero
                 else IEEE.zero) in
    let v2 := IEEE.mkXYZ (IEEE.dmul pt2 IEEE.one) (IEEE.dmul pt2 IEEE.zero)
                (if IEEE.dltb IEEE.zero pt2 then IEEE.dmul pt2 IEEE.zero
                 else IEEE.zero) in
    let t1 := PZetaMachine.transverse (PZetaMachine.normalize v1) in
    let t2 := PZetaMachine.transverse (PZetaMachine.normalize v2) in
    PZetaMachine.has_length v1 && PZetaMachine.has_length v2
    && PZetaMachine.has_length t1 && PZetaMachine.has_length t2
    && PZetaMachine.has_length
         (IEEE.add3 (PZetaMachine.normalize t1) (PZetaMachine.normalize t2)).
Proof.
  intros H. unfold PZetaMachine.lengths_nonzero, PZetaMachine.transverse_direction.
  rewrite !(Vect_at_zero_angles _ _ H). reflexivity.
Qed.

(** When its length does not compute to zero, [Unit] divides by it. *)
Lemma Unit_has_length (v : IEEE.XYZVector) :
  PZetaMachine.has_length v = true -> IEEE.Unit v = PZetaMachine.normalize v.
Proof.
  unfold PZetaMachine.has_length, IEEE.Unit, PZetaMachine.normalize.
  cbv zeta. intros H. apply negb_true_iff in H. now rewrite H.
Qed.

Lemma SetZ_transverse_machine (v : IEEE.XYZVector) :
  IEEE.SetZ v IEEE.zero = PZetaMachine.transverse v.
Proof. reflexivity. Qed.

Lemma pzetamissvis_machine_formula (p1 p2 met : IEEE.PtEtaPhiMVector) :
  PZetaMachine.lengths_nonzero cos sin sinh p1 p2 = true ->
  IEEE.pzetamissvis cos sin sinh p1 p2 met
  = PZetaMachine.pZetaMissVis cos sin sinh p1 p2 met.
Proof.
  unfold PZetaMachine.lengths_nonzero, PZetaMachine.transverse_direction.
  intros H.
  apply andb_prop in H as [H H5]. apply andb_prop in H as [H H4].
  apply andb_prop in H as [H H3]. apply andb_prop in H as [H1 H2].
  unfold IEEE.pzetamissvis. cbv zeta.
  rewrite (Unit_has_length _ H1), (Unit_has_length _ H2).
  rewrite !SetZ_transverse_machine.
  rewrite (Unit_has_length _ H3), (Unit_has_length _ H4).
  rewrite (Unit_has_length _ H5).
  reflexivity.
Qed.

End MachineVectors.


(** ** Four-vector kinematics *)

(** C8, as the code has it: [pt] returns the pt of the vector narrowed to
    [float], for every vector and with no guard, and [eta] the eta
    narrowed to [float]; a coordinate that is a [float] comes back as it
    is, a negative one too. For a negative pt [pt] and [eta] still do so,
    while [phi] and [mass] give the default. The narrowing leaves -10 as
    it is, turns 16777217 into 16777216 and -1e-46 into the zero of
    negative sign, which does not compare below zero. *)
Theorem pt_eta_unguarded (default_float : IEEE.float) (v : IEEE.PtEtaPhiMVector) :
  IEEE.pt v = IEEE.float_of_double (IEEE.Pt v) /\
  IEEE.eta v = IEEE.float_of_double (IEEE.Eta v) /\
  (forall f : IEEE.float, valid_binary 24 128 f = true ->
     (IEEE.Pt v = IEEE.double_of_float f -> IEEE.pt v = f) /\
     (IEEE.Eta v = IEEE.double_of_float f -> IEEE.eta v = f)) /\
  (IEEE.dltb (IEEE.Pt v) IEEE.zero = true ->
   IEEE.pt v = IEEE.float_of_double (IEEE.Pt v) /\
   IEEE.eta v = IEEE.float_of_double (IEEE.Eta v) /\
   IEEE.phi default_float v = default_float /\
   IEEE.mass default_float v = default_float) /\
  IEEE.SF2R (IEEE.float_of_double (IEEE.double_of_Z (-10))) = (-10)%R /\
  IEEE.SF2R (IEEE.float_of_double (IEEE.double_of_Z 16777217)) = 16777216%R /\
  (let tiny := IEEE.ddiv (IEEE.double_of_Z (-1)) (IEEE.double_of_Z (10 ^ 46)) in
   IEEE.dltb tiny IEEE.zero = true /\
   IEEE.float_of_double tiny = S754_zero true /\
   IEEE.dltb (IEEE.float_of_double tiny) IEEE.zero = false).
Proof.
  split; [reflexivity|]. split; [reflexivity|].
  split; [|split; [|split; [|split]]].
  - intros f Hf. split; intros Hv.
    + unfold IEEE.pt. rewrite Hv. now apply float_of_double_of_float.
    + unfold IEEE.eta. rewrite Hv. now apply float_of_double_of_float.
  - intros Hneg. unfold IEEE.phi, IEEE.mass. rewrite Hneg. repeat split.
  - vm_compute IEEE.float_of_double. unfold IEEE.SF2R. simpl. lra.
  - vm_compute IEEE.float_of_double. unfold IEEE.SF2R. simpl. lra.
  - cbv zeta. repeat split; vm_compute; reflexivity.
Qed.

(** The default vector, all of whose coordinates are -10: the pt comes
    back as -10, and so does the eta. *)
Lemma pt_eta_unguarded_example :
  let minus_ten : IEEE.float := S754_finite true 10485760 (-20) in
  let v := IEEE.mkPtEtaPhiM (IEEE.double_of_float minus_ten)
                            (IEEE.double_of_float minus_ten)
                            (IEEE.double_of_float minus_ten)
                            (IEEE.double_of_float minus_ten) in
  IEEE.SF2R minus_ten = (-10)%R /\
  IEEE.pt v = minus_ten /\ IEEE.eta v = minus_ten /\
  IEEE.phi minus_ten v = minus_ten.
Proof.
  cbv zeta. split; [unfold IEEE.SF2R; simpl; lra|].
  destruct (pt_eta_unguarded
              (S754_finite true 10485760 (-20))
              (IEEE.mkPtEtaPhiM
                 (IEEE.double_of_float (S754_finite true 10485760 (-20)))
                 (IEEE.double_of_float (S754_finite true 10485760 (-20)))
                 (IEEE.double_of_float (S754_finite true 10485760 (-20)))
                 (IEEE.double_of_float (S754_finite true 10485760 (-20)))))
    as [_ [_ [Hfloat [Hbad _]]]].
  destruct (Hfloat (S754_finite true 10485760 (-20)) eq_refl) as [Hpt Heta].
  destruct Hbad as [_ [_ [Hphi _]]]; [vm_compute; reflexivity|].
  split; [exact (Hpt eq_refl)|]. split; [exact (Heta eq_refl) | exact Hphi].
Defined.

(** A pt that is not a [float]: 2^24 + 1 comes back as 2^24. *)
Lemma pt_rounds_to_float :
  let v := IEEE.mkPtEtaPhiM (IEEE.double_of_Z 16777217) IEEE.zero IEEE.zero
                            IEEE.zero in
  IEEE.SF2R (IEEE.Pt v) = 16777217%R /\ IEEE.SF2R (IEEE.pt v) = 16777216%R.
Proof.
  cbv zeta. split.
  - vm_compute IEEE.Pt. unfold IEEE.SF2R. simpl. lra.
  - vm_compute IEEE.pt. unfold IEEE.SF2R. simpl. lra.
Qed.




(** ** pZetaMissVis, the code against the formula *)

(** C7, as the code has it. In exact arithmetic, for particles whose
    three-vectors have a transverse component, [pzetamissvis] is
    pZetaMiss - alpha pZetaVis with the bisector obtained by normalizing
    each particle's three-vector, zeroing z, normalizing again, adding
    the two and normalizing the sum, none of the normalizations of a
    particle's vector dividing by zero; the coefficient is the binary32
    constant [alpha] = 0.85000002384185791015625, not 0.85. On the
    machine numbers [pzetamissvis] is that formula, every step rounded,
    whenever none of the five lengths computes to zero. A transverse
    component does not ensure that: with pt = 2^-700 the squared lengths
    underflow and the result is 10 * 2^-699 where the formula is near 10,
    and with pt = 1e308 they overflow and the result is not a number. *)
Theorem pzetamissvis_formula :
  (forall p1 p2 met : PtEtaPhiMVector,
     PZetaSpec.has_transverse_component p1 ->
     PZetaSpec.has_transverse_component p2 ->
     pzetamissvis p1 p2 met = PZetaSpec.pZetaMissVis_with alpha p1 p2 met /\
     PZetaSpec.length (Vect p1) <> 0%R /\
     PZetaSpec.length (Vect p2) <> 0%R /\
     PZetaSpec.length (PZetaSpec.transverse (PZetaSpec.normalize (Vect p1)))
     <> 0%R /\
     PZetaSpec.length (PZetaSpec.transverse (PZetaSpec.normalize (Vect p2)))
     <> 0%R) /\
  alpha = 0.85000002384185791015625%R /\
  IEEE.SF2R (IEEE.double_of_float IEEE.alpha) = alpha /\
  (forall (cos sin sinh : IEEE.double -> IEEE.double)
          (p1 p2 met : IEEE.PtEtaPhiMVector),
     PZetaMachine.lengths_nonzero cos sin sinh p1 p2 = true ->
     IEEE.pzetamissvis cos sin sinh p1 p2 met
     = PZetaMachine.pZetaMissVis cos sin sinh p1 p2 met) /\
  (forall cos sin sinh : IEEE.double -> IEEE.double,
     IEEE.exact_at_zero cos sin sinh ->
     let along_x pt := IEEE.mkPtEtaPhiM pt IEEE.zero IEEE.zero IEEE.zero in
     let ten := along_x (IEEE.double_of_Z 10) in
     let tiny := along_x (IEEE.double_of_scaled 1 (-700)) in
     let huge := along_x (IEEE.double_of_Z (10 ^ 308)) in
     (PZetaMachine.lengths_nonzero cos sin sinh
        (along_x (IEEE.double_of_Z 40)) (along_x (IEEE.double_of_Z 30)) = true /\
      IEEE.SF2R (IEEE.pzetamissvis cos sin sinh
                   (along_x (IEEE.double_of_Z 40))
                   (along_x (IEEE.double_of_Z 30)) ten)
      = (10 - 70 * alpha)%R) /\
     (IEEE.is_zero (IEEE.Px cos tiny) = false /\
      PZetaMachine.lengths_nonzero cos sin sinh tiny tiny = false /\
      IEEE.pzetamissvis cos sin sinh tiny tiny ten
      = IEEE.double_of_scaled 10 (-699)) /\
     (IEEE.is_finite (IEEE.Pt huge) = true /\
      IEEE.is_zero (IEEE.Px cos huge) = false /\
      PZetaMachine.lengths_nonzero cos sin sinh huge huge = false /\
      IEEE.pzetamissvis cos sin sinh huge huge
        (along_x (IEEE.double_of_Z 1)) = S754_nan)).
Proof.
  split; [|split; [|split; [|split]]].
  - intros p1 p2 met H1 H2. split; [apply pzetamissvis_unfold|].
    repeat split;
      first [ now apply particle_length_nonzero
            | now apply transverse_length_nonzero ].
  - unfold alpha. lra.
  - vm_compute IEEE.double_of_float. unfold IEEE.SF2R, alpha. simpl. lra.
  - intros cos sin sinh p1 p2 met. apply pzetamissvis_machine_formula.
  - intros cos sin sinh H. cbv zeta.
    pose proof H as [Hc _].
    split; [|split].
    + split.
      * rewrite (lengths_nonzero_at_zero_angles cos sin sinh _ _ H).
        vm_compute. reflexivity.
      * rewrite (pzetamissvis_along_x_machine cos sin sinh H).
        unfold IEEE.SF2R, alpha. simpl. lra.
    + split; [|split].
      * unfold IEEE.Px. cbn [IEEE.fPt IEEE.fPhi]. rewrite Hc.
        vm_compute. reflexivity.
      * rewrite (lengths_nonzero_at_zero_angles cos sin sinh _ _ H).
        vm_compute. reflexivity.
      * rewrite (pzetamissvis_underflow cos sin sinh H).
        vm_compute. reflexivity.
    + split; [|split; [|split]].
      * vm_compute. reflexivity.
      * unfold IEEE.Px. cbn [IEEE.fPt IEEE.fPhi]. rewrite Hc.
        vm_compute. reflexivity.
      * rewrite (lengths_nonzero_at_zero_angles cos sin sinh _ _ H).
        vm_compute. reflexivity.
      * exact (pzetamissvis_overflow cos sin sinh H).
Qed.

(** Leptons of pt 40 and 30 at a right angle and a MET of pt 10 along the
    first: the bisector is at 45 degrees. On the machine numbers, the
    same leptons along x, with a cosine that is 1 everywhere and the
    identity for the sine and the hyperbolic sine. *)
Lemma pzetamissvis_formula_example :
  let v1 := mkPtEtaPhiM 40 1 0 0.1 in
  let v2 := mkPtEtaPhiM 30 (-0.5) (PI / 2) 0.1 in
  let met := mkPtEtaPhiM 10 0 0 0 in
  let along_x pt := IEEE.mkPtEtaPhiM pt IEEE.zero IEEE.zero IEEE.zero in
  pzetamissvis v1 v2 met = PZetaSpec.pZetaMissVis_with alpha v1 v2 met /\
  PZetaSpec.pZetaMissVis_with alpha v1 v2 met = ((10 - 70 * alpha) / sqrt 2)%R /\
  IEEE.pzetamissvis (fun _ => IEEE.one) (fun x => x) (fun x => x)
    (along_x (IEEE.double_of_Z 40)) (along_x (IEEE.double_of_Z 30))
    (along_x (IEEE.double_of_Z 10))
  = PZetaMachine.pZetaMissVis (fun _ => IEEE.one) (fun x => x) (fun x => x)
      (along_x (IEEE.double_of_Z 40)) (along_x (IEEE.double_of_Z 30))
      (along_x (IEEE.double_of_Z 10)).
Proof.
  cbv zeta.
  destruct pzetamissvis_formula as [Hexact [_ [_ [Hmachine _]]]].
  destruct (Hexact (mkPtEtaPhiM 40 1 0 0.1) (mkPtEtaPhiM 30 (-0.5) (PI / 2) 0.1)
                   (mkPtEtaPhiM 10 0 0 0)) as [Heq _].
  - left. unfold Px. simpl. rewrite cos_0. lra.
  - right. unfold Py. simpl. rewrite sin_PI2. lra.
  - split; [exact Heq|]. split.
    + rewrite pZetaMissVis_transverse by (simpl; lra).
      unfold pzeta_transverse. cbv zeta. simpl.
      rewrite cos_0, sin_0, cos_PI2, sin_PI2.
      replace ((1 + 0) * (1 + 0) + (0 + 1) * (0 + 1))%R with 2%R by ring.
      assert (Hs : (sqrt 2 <> 0)%R)
        by (apply Rgt_not_eq, Rlt_gt, sqrt_lt_R0; lra).
      field. exact Hs.
    + apply Hmachine. vm_compute. reflexivity.
Defined.

(** Leptons of pt 40 and 30 and a MET of pt 10, all along x: the code
    gives 10 - 70 alpha, the formula with the coefficient 0.85 gives
    -49.5. *)
Lemma pzetamissvis_coefficient_not_085 :
  let v1 := mkPtEtaPhiM 40 0 0 0 in
  let v2 := mkPtEtaPhiM 30 0 0 0 in
  let met := mkPtEtaPhiM 10 0 0 0 in
  (PZetaSpec.has_transverse_component v1 /\
   PZetaSpec.has_transverse_component v2) /\
  pzetamissvis v1 v2 met = (-49.5000016689300537109375)%R /\
  PZetaSpec.pZetaMissVis v1 v2 met = (-49.5)%R /\
  (forall cos sin sinh : IEEE.double -> IEEE.double,
     IEEE.exact_at_zero cos sin sinh ->
     IEEE.SF2R
       (IEEE.pzetamissvis cos sin sinh
          (IEEE.mkPtEtaPhiM (IEEE.double_of_Z 40) IEEE.zero IEEE.zero IEEE.zero)
          (IEEE.mkPtEtaPhiM (IEEE.double_of_Z 30) IEEE.zero IEEE.zero IEEE.zero)
          (IEEE.mkPtEtaPhiM (IEEE.double_of_Z 10) IEEE.zero IEEE.zero IEEE.zero))
     = (-49.5000016689300537109375)%R).
Proof.
  cbv zeta. split; [|split; [|split]].
  - split; left; unfold Px; simpl; rewrite cos_0; lra.
  - rewrite pzetamissvis_unfold.
    rewrite pZetaMissVis_same_azimuth by (simpl; first [lra | reflexivity]).
    simpl. replace (0 - 0)%R with 0%R by ring. rewrite cos_0.
    unfold alpha. lra.
  - unfold PZetaSpec.pZetaMissVis.
    rewrite pZetaMissVis_same_azimuth by (simpl; first [lra | reflexivity]).
    simpl. replace (0 - 0)%R with 0%R by ring. rewrite cos_0. lra.
  - intros cos sin sinh H.
    rewrite (pzetamissvis_along_x_machine cos sin sinh H).
    unfold IEEE.SF2R. simpl. lra.
Qed.

(** ** Exceptions and values that are not numbers *)



